(** * The mood-to-audio-feature resolver of [spotify.js]

    A shallow embedding of lines 22-46 and 104-128 of [src/spotify.js]: the
    three lookup tables, the adjustment loop of
    [getRecommendationsByMoodAndAge] and the construction of the query
    parameters.

    The program is JavaScript, and three features of the language decide
    what it does:
    - numbers are IEEE-754 binary64 values, modelled by Rocq's primitive
      [float] (same format, same rounding);
    - objects live in a heap and are handed around by reference, so the
      record bound to [features] IS the entry of [MOOD_FEATURES];
    - a property read walks the prototype chain, so a table written as an
      object literal also answers for the names it inherits from
      [Object.prototype].

    The token request and the HTTP call around these lines, the routes of
    the server and the request helpers of the page come after the
    resolver, against a network that is a parameter. *)

From Stdlib Require Import ZArith List String Ascii Bool Lia.
From Stdlib Require Import Uint63 PrimFloat FloatOps SpecFloat DecimalString.
From stdpp Require Import base option list.

Set Warnings "-inexact-float".
Local Open Scope string_scope.

(** ** Values, objects and the heap *)

Definition loc := nat.

Inductive value : Type :=
| VUndef
| VNull
| VNum (x : float)
| VStr (s : string)
| VNative (name : string)   (* a built-in function; the program never writes to one *)
| VRef (l : loc).

(** The two accessor properties of the initial realm that a string key can
    reach: [Object.prototype.__proto__], whose getter returns the prototype
    of the receiver, and the [caller]/[arguments] poison pills of
    [Function.prototype], whose getter throws. *)
Inductive accessor : Type := ProtoOf | Thrower.

Inductive slot : Type :=
| Data (v : value) (enumerable writable : bool)
| Accessor (a : accessor).

Record object : Type := Object { proto : option loc; props : list (string * slot) }.

(** Which arm of the callback at lines 109-113 ran for a key.  The trace is
    ghost state: nothing reads it. *)
Inductive event : Type :=
| OwnBranch (key : string)      (* line 110 *)
| TempoBranch                   (* line 112 *)
| NoBranch (key : string).      (* neither condition held *)

Record state : Type := State { heap : list object; trace : list event }.

(** ** Computations: state passing with JavaScript exceptions *)

Inductive error : Type :=
| TypeError      (* the exception JavaScript throws *)
| Unsupported    (* the program left the modelled fragment of the language *)
| OutOfFuel.     (* a prototype chain longer than the heap *)

Definition M (A : Type) : Type := state -> (error + A) * state.

#[global] Instance M_ret : MRet M := fun A a s => (inr a, s).
#[global] Instance M_bind : MBind M := fun A B f m s =>
  match m s with
  | (inr a, s') => f a s'
  | (inl e, s') => (inl e, s')
  end.

Definition throw {A} (e : error) : M A := fun s => (inl e, s).
Definition lift {A} (r : error + A) : M A := fun s => (r, s).
Definition get_heap : M (list object) := fun s => (inr (heap s), s).
Definition put_heap (h : list object) : M unit :=
  fun s => (inr tt, State h (trace s)).
Definition emit (e : event) : M unit :=
  fun s => (inr tt, State (heap s) (trace s ++ [e])).

(** [Array.prototype.forEach] over a list of keys. *)
Fixpoint forEach {A} (xs : list A) (callback : A -> M unit) : M unit :=
  match xs with
  | [] => mret tt
  | x :: rest => callback x ;; forEach rest callback
  end.

(** ** Property access *)

Fixpoint own_property (ps : list (string * slot)) (key : string) : option slot :=
  match ps with
  | [] => None
  | (k, s) :: rest => if String.eqb key k then Some s else own_property rest key
  end.

(** OrdinaryGet: the first object on the prototype chain of [l] that owns
    [key]. *)
Fixpoint find_property (fuel : nat) (h : list object) (l : loc) (key : string)
  : error + option slot :=
  match fuel with
  | O => inl OutOfFuel
  | S fuel' =>
    match h !! l with
    | None => inl Unsupported
    | Some o =>
      match own_property (props o) key with
      | Some s => inr (Some s)
      | None =>
        match proto o with
        | Some p => find_property fuel' h p key
        | None => inr None
        end
      end
    end
  end.

Definition chain_fuel (h : list object) : nat := S (length h).

Definition proto_value (h : list object) (l : loc) : value :=
  match h !! l with
  | Some (Object (Some p) _) => VRef p
  | _ => VNull
  end.

(** [base[key]] as an expression. *)
Definition get_member (base : value) (key : string) : M value :=
  match base with
  | VUndef | VNull => throw TypeError
  | VRef l =>
    h ← get_heap;
    found ← lift (find_property (chain_fuel h) h l key);
    match found with
    | None => mret VUndef
    | Some (Data v _ _) => mret v
    | Some (Accessor ProtoOf) => mret (proto_value h l)
    | Some (Accessor Thrower) => throw TypeError
    end
  | VNum _ | VStr _ | VNative _ => throw Unsupported
  end.

Fixpoint replace_own (ps : list (string * slot)) (key : string) (v : value)
  : list (string * slot) :=
  match ps with
  | [] => []
  | (k, s) :: rest =>
    if String.eqb key k
    then (k, match s with
             | Data _ e true => Data v e true
             | _ => s            (* read-only: the write is dropped (sloppy mode) *)
             end) :: rest
    else (k, s) :: replace_own rest key v
  end.

(** [base[key] = v] as a statement (OrdinarySet in a non-strict script). *)
Definition set_member (base : value) (key : string) (v : value) : M unit :=
  match base with
  | VUndef | VNull => throw TypeError
  | VRef l =>
    h ← get_heap;
    match h !! l with
    | None => throw Unsupported
    | Some o =>
      match own_property (props o) key with
      | Some (Data _ _ _) =>
        put_heap (<[l := Object (proto o) (replace_own (props o) key v)]> h)
      | Some (Accessor _) => throw Unsupported
      | None =>
        inherited ← lift (match proto o with
                          | Some p => find_property (chain_fuel h) h p key
                          | None => inr None
                          end);
        match inherited with
        | None | Some (Data _ _ true) =>
          put_heap (<[l := Object (proto o) (props o ++ [(key, Data v true true)])]> h)
        | Some (Data _ _ false) => mret tt
        | Some (Accessor _) => throw Unsupported
        end
      end
    end
  | VNum _ | VStr _ | VNative _ => throw Unsupported
  end.

(** An object literal [{}]. *)
Definition alloc (o : object) : M value :=
  fun s => (inr (VRef (length (heap s))), State (heap s ++ [o]) (trace s)).

(** ** Operators *)

(** ToBoolean, as used by [||]. *)
Definition truthy (v : value) : bool :=
  match v with
  | VUndef | VNull => false
  | VNum x => negb (PrimFloat.is_zero x || PrimFloat.is_nan x)
  | VStr s => negb (String.eqb s "")
  | VNative _ | VRef _ => true
  end.

(** ToNumber on the primitives that can reach the arithmetic. *)
Definition to_number (v : value) : M float :=
  match v with
  | VUndef => mret PrimFloat.nan
  | VNull => mret PrimFloat.zero
  | VNum x => mret x
  | VStr _ | VNative _ | VRef _ => throw Unsupported
  end.

(** Binary [+]: numeric addition unless a string or an object takes part. *)
Definition js_add (a b : value) : M value :=
  x ← to_number a; y ← to_number b; mret (VNum (PrimFloat.add x y)).

(** [Math.max] and [Math.min] of two numbers: NaN is contagious and
    [-0] is smaller than [+0]. *)
Definition Math_max (a b : float) : float :=
  if (PrimFloat.is_nan a || PrimFloat.is_nan b)%bool then PrimFloat.nan
  else if PrimFloat.ltb a b then b
  else if PrimFloat.ltb b a then a
  else if PrimFloat.get_sign a then b else a.

Definition Math_min (a b : float) : float :=
  if (PrimFloat.is_nan a || PrimFloat.is_nan b)%bool then PrimFloat.nan
  else if PrimFloat.ltb a b then a
  else if PrimFloat.ltb b a then b
  else if PrimFloat.get_sign a then a else b.

(** [String.prototype.toLowerCase].  A string is its sequence of bytes and
    only the ASCII capitals are mapped; every key of the tables and every
    inherited name is ASCII without the letter k, the one ASCII letter that
    a non-ASCII character (the Kelvin sign) lower-cases to, so the lookups
    below cannot tell this from the Unicode mapping. *)
Definition lower_ascii (c : ascii) : ascii :=
  let n := nat_of_ascii c in
  if ((65 <=? n) && (n <=? 90))%nat then ascii_of_nat (n + 32) else c.

Fixpoint toLowerCase (s : string) : string :=
  match s with
  | EmptyString => EmptyString
  | String c rest => String (lower_ascii c) (toLowerCase rest)
  end.

(** ** The heap when the module has been loaded *)

Definition field (k : string) (v : value) : string * slot := (k, Data v true true).
Definition hidden (k : string) (v : value) : string * slot := (k, Data v false true).
Definition fixed (k : string) (v : value) : string * slot := (k, Data v false false).
Definition method (k : string) : string * slot := hidden k (VNative k).
Definition num (x : float) : value := VNum x.

(** *** The built-in objects the tables inherit from *)

Definition ObjectPrototype : loc := 0.
Definition FunctionPrototype : loc := 1.
Definition ObjectCtor : loc := 2.

Definition object_prototype : object :=
  Object None
    [ hidden "constructor" (VRef ObjectCtor);
      method "__defineGetter__"; method "__defineSetter__";
      method "hasOwnProperty";
      method "__lookupGetter__"; method "__lookupSetter__";
      method "isPrototypeOf"; method "propertyIsEnumerable";
      method "toString"; method "valueOf";
      ("__proto__", Accessor ProtoOf);
      method "toLocaleString" ].

Definition function_prototype : object :=
  Object (Some ObjectPrototype)
    [ fixed "length" (num 0); fixed "name" (VStr "");
      ("arguments", Accessor Thrower); ("caller", Accessor Thrower);
      hidden "constructor" (VNative "Function");
      method "apply"; method "bind"; method "call"; method "toString" ].

Definition object_ctor : object :=
  Object (Some FunctionPrototype)
    [ fixed "length" (num 1); fixed "name" (VStr "Object");
      fixed "prototype" (VRef ObjectPrototype);
      method "assign"; method "getOwnPropertyDescriptor";
      method "getOwnPropertyDescriptors"; method "getOwnPropertyNames";
      method "getOwnPropertySymbols"; method "hasOwn"; method "is";
      method "preventExtensions"; method "seal"; method "create";
      method "defineProperties"; method "defineProperty"; method "freeze";
      method "getPrototypeOf"; method "setPrototypeOf";
      method "isExtensible"; method "isFrozen"; method "isSealed";
      method "keys"; method "entries"; method "fromEntries"; method "values";
      method "groupBy" ].

(** *** MOOD_FEATURES (lines 22-28) *)

Definition MOOD_FEATURES : loc := 3.
Definition features_happy : loc := 4.
Definition features_energetic : loc := 5.
Definition features_calm : loc := 6.
Definition features_sad : loc := 7.
Definition features_stressed : loc := 8.

Definition literal (ps : list (string * slot)) : object :=
  Object (Some ObjectPrototype) ps.

Definition features_literal (valence energy danceability acousticness tempo : float)
  : object :=
  literal [ field "valence" (num valence); field "energy" (num energy);
            field "danceability" (num danceability);
            field "acousticness" (num acousticness); field "tempo" (num tempo) ].

Definition mood_features : object :=
  literal [ field "happy" (VRef features_happy);
            field "energetic" (VRef features_energetic);
            field "calm" (VRef features_calm);
            field "sad" (VRef features_sad);
            field "stressed" (VRef features_stressed) ].

(** *** AGE_ADJUSTMENTS (lines 31-37) *)

Definition AGE_ADJUSTMENTS : loc := 9.
Definition adjust_13_17 : loc := 10.
Definition adjust_18_25 : loc := 11.
Definition adjust_26_35 : loc := 12.
Definition adjust_36_50 : loc := 13.
Definition adjust_50_plus : loc := 14.

Definition age_adjustments : object :=
  literal [ field "13-17" (VRef adjust_13_17);
            field "18-25" (VRef adjust_18_25);
            field "26-35" (VRef adjust_26_35);
            field "36-50" (VRef adjust_36_50);
            field "50+" (VRef adjust_50_plus) ].

(** *** MOOD_GENRES (lines 40-46) *)

Definition MOOD_GENRES : loc := 15.

Definition mood_genres : object :=
  literal [ field "happy" (VStr "pop,indie-pop,electro-pop");
            field "energetic" (VStr "dance,electronic,hip-hop");
            field "calm" (VStr "ambient,indie-folk,acoustic");
            field "sad" (VStr "indie,alternative,folk");
            field "stressed" (VStr "lo-fi,chill-pop,singer-songwriter") ].

Definition initial_heap : list object :=
  [ object_prototype; function_prototype; object_ctor;
    mood_features;
    features_literal 0.8 0.75 0.85 0.15 120;   (* happy *)
    features_literal 0.85 0.85 0.8 0.1 130;    (* energetic *)
    features_literal 0.3 0.2 0.3 0.7 70;       (* calm *)
    features_literal 0.2 0.25 0.25 0.8 60;     (* sad *)
    features_literal 0.35 0.3 0.4 0.6 75;      (* stressed *)
    age_adjustments;
    literal [ field "danceability" (num 0.05); field "tempo" (num 10);
              field "energy" (num 0.03) ];                              (* 13-17 *)
    literal [ field "danceability" (num 0.02); field "tempo" (num 0);
              field "energy" (num 0) ];                                 (* 18-25 *)
    literal [ field "acousticness" (num 0.03); field "tempo" (num (-5)) ];  (* 26-35 *)
    literal [ field "acousticness" (num 0.05); field "tempo" (num (-10));
              field "energy" (num (-0.05)) ];                           (* 36-50 *)
    literal [ field "acousticness" (num 0.08); field "tempo" (num (-15));
              field "energy" (num (-0.1)) ];                            (* 50+ *)
    mood_genres ].

Definition initial : state := State initial_heap [].

(** ** Built-in functions the loop calls *)

(** [Object.keys(v)]: the own enumerable string keys, in creation order
    (none of the keys in this program is an array index). *)
Definition enumerable_keys (ps : list (string * slot)) : list string :=
  omap (fun p => match p with
                 | (k, Data _ true _) => Some k
                 | _ => None
                 end) ps.

Definition Object_keys (v : value) : M (list string) :=
  f ← get_member (VRef ObjectCtor) "keys";
  match f with
  | VNative "keys" =>
    match v with
    | VUndef | VNull => throw TypeError
    | VRef l =>
      h ← get_heap;
      match h !! l with
      | Some o => mret (enumerable_keys (props o))
      | None => throw Unsupported
      end
    | VNative _ | VNum _ => mret []
    | VStr _ => throw Unsupported
    end
  | VUndef | VNull | VNum _ | VStr _ => throw TypeError
  | VNative _ | VRef _ => throw Unsupported
  end.

(** [base.hasOwnProperty(key)]: the method is looked up on [base] like any
    other property and must be the built-in of [Object.prototype]. *)
Definition hasOwnProperty (base : value) (key : string) : M bool :=
  f ← get_member base "hasOwnProperty";
  match f with
  | VNative "hasOwnProperty" =>
    match base with
    | VRef l =>
      h ← get_heap;
      match h !! l with
      | Some o => mret (match own_property (props o) key with
                        | Some _ => true
                        | None => false
                        end)
      | None => throw Unsupported
      end
    | _ => throw Unsupported
    end
  | VUndef | VNull | VNum _ | VStr _ => throw TypeError
  | VNative _ | VRef _ => throw Unsupported
  end.

Definition math_min (a : float) (v : value) : M value :=
  x ← to_number v; mret (VNum (Math_min a x)).
Definition math_max (a : float) (v : value) : M value :=
  x ← to_number v; mret (VNum (Math_max a x)).

(** ** getRecommendationsByMoodAndAge, lines 104-117 *)

(** The callback of [forEach] (lines 108-114). *)
Definition adjust (features adjustments : value) (key : string) : M unit :=
  own ← hasOwnProperty features key;
  if (own : bool) then
    emit (OwnBranch key);;
    old ← get_member features key;
    delta ← get_member adjustments key;
    sum ← js_add old delta;
    low ← math_min 1 sum;
    new ← math_max 0 low;
    set_member features key new
  else if String.eqb key "tempo" then
    emit TempoBranch;;
    old ← get_member features "tempo";
    delta ← get_member adjustments key;
    sum ← js_add old delta;
    new ← math_max 50 sum;
    set_member features "tempo" new
  else emit (NoBranch key).

(** [a || b], with [b] evaluated only when [a] is falsy. *)
Definition or_else (a : M value) (b : M value) : M value :=
  v ← a; if truthy v then mret v else b.

(** Line 104: the right-hand side of [let features = ...]. *)
Definition baseFeatures (moodKey : string) : M value :=
  or_else (get_member (VRef MOOD_FEATURES) (toLowerCase moodKey))
          (get_member (VRef MOOD_FEATURES) "happy").

(** Line 107: the right-hand side of [const adjustments = ...]. *)
Definition ageAdjustments (ageGroup : string) : M value :=
  or_else (get_member (VRef AGE_ADJUSTMENTS) ageGroup) (alloc (literal [])).

(** Lines 108-114: [Object.keys(adjustments).forEach(key => ...)]. *)
Definition applyAdjustments (features adjustments : value) : M unit :=
  keys ← Object_keys adjustments;
  forEach keys (adjust features adjustments).

(** Line 117: the right-hand side of [const genres = ...]. *)
Definition seedGenres (moodKey : string) : M value :=
  or_else (get_member (VRef MOOD_GENRES) (toLowerCase moodKey))
          (mret (VStr "pop")).

(** Lines 104-117: the object bound to [features] after the loop, and
    [genres].  [ageGroup] is [None] when the caller leaves the argument
    out, which selects the default of line 99. *)
Definition resolveFeatures (moodKey : string) (ageGroup : option string)
  : M (value * value) :=
  let ageGroup := match ageGroup with Some g => g | None => "18-25" end in
  features ← baseFeatures moodKey;
  adjustments ← ageAdjustments ageGroup;
  applyAdjustments features adjustments;;
  genres ← seedGenres moodKey;
  mret (features, genres).

(** ** getRecommendationsByMoodAndAge, lines 120-128 *)

(** *** Number formatting

    A finite nonzero binary64 value is [(-1)^s * m * 2^e]; [Prim2SF] exposes
    [s], [m] and [e], and the roundings below are computed on that exact
    value with integer arithmetic. *)

(** [m * 2^e >= bound]. *)
Definition at_least (m : positive) (e : Z) (bound : Z) : bool :=
  if (0 <=? e)%Z then (bound <=? Z.pos m * 2 ^ e)%Z
  else (bound * 2 ^ (- e) <=? Z.pos m)%Z.

(** The integer closest to [num / den], the larger one when two are equally
    close: [floor (num / den + 1/2)]. *)
Definition nearest (num den : Z) : Z := ((2 * num + den) / (2 * den))%Z.

(** The integer [n] for which [n / 10^f - m * 2^e] is closest to zero, the
    larger one when two are equally close (Number.prototype.toFixed). *)
Definition scaled_nearest (m : positive) (e : Z) (f : nat) : Z :=
  let scaled := (Z.pos m * 10 ^ Z.of_nat f)%Z in
  if (0 <=? e)%Z then (scaled * 2 ^ e)%Z
  else nearest scaled (2 ^ (- e)).

Definition decimal (n : Z) : string :=
  NilZero.string_of_uint (N.to_uint (Z.to_N n)).

Fixpoint zeros (n : nat) : string :=
  match n with
  | O => ""
  | S n' => String "0" (zeros n')
  end.

(** The digits of [n] with a point before the last [f] of them. *)
Definition fixed_point (n : Z) (f : nat) : string :=
  let digits := decimal n in
  let digits := zeros (S f - String.length digits) ++ digits in
  let k := (String.length digits - f)%nat in
  match f with
  | O => digits
  | _ => substring 0 k digits ++ "." ++ substring k f digits
  end.

(** [x.toFixed(f)] for a number [x] and [0 <= f <= 100]. *)
Definition Number_toFixed (x : float) (f : nat) : error + string :=
  match Prim2SF x with
  | S754_nan => inr "NaN"
  | S754_infinity false => inr "Infinity"
  | S754_infinity true => inr "-Infinity"
  | S754_zero _ => inr (fixed_point 0 f)
  | S754_finite s m e =>
    if at_least m e (10 ^ 21) then inl Unsupported   (* exponent notation *)
    else inr ((if s then "-" else "") ++ fixed_point (scaled_nearest m e f) f)
  end.

Definition float_of_Z (n : Z) : float :=
  let magnitude := PrimFloat.of_uint63 (Uint63.of_Z (Z.abs n)) in
  if (n <? 0)%Z then PrimFloat.opp magnitude else magnitude.

(** [Math.round]: the closest integer, the one towards +infinity when two
    are equally close; a zero result keeps the sign of the argument. *)
Definition Math_round (x : float) : float :=
  match Prim2SF x with
  | S754_finite s m e =>
    if (0 <=? e)%Z then x
    else
      let n := nearest (if s then Z.neg m else Z.pos m) (2 ^ (- e)) in
      if (n =? 0)%Z then (if s then PrimFloat.neg_zero else PrimFloat.zero)
      else float_of_Z n
  | _ => x
  end.

(** Number::toString for the values that print without a fraction or an
    exponent. *)
Definition Number_toString (x : float) : error + string :=
  match Prim2SF x with
  | S754_nan => inr "NaN"
  | S754_infinity false => inr "Infinity"
  | S754_infinity true => inr "-Infinity"
  | S754_zero _ => inr "0"
  | S754_finite s m e =>
    if ((0 <=? e)%Z && negb (at_least m e (10 ^ 21)))%bool
    then inr ((if s then "-" else "") ++ decimal (Z.pos m * 2 ^ e))
    else if ((e <? 0)%Z && (Z.pos m mod 2 ^ (- e) =? 0)%Z)%bool
    then inr ((if s then "-" else "") ++ decimal (Z.pos m / 2 ^ (- e)))
    else inl Unsupported
  end.

(** *** The expressions of the object literal *)

(** [v.toFixed(f)]. *)
Definition toFixed (v : value) (f : nat) : M value :=
  match v with
  | VUndef | VNull => throw TypeError       (* cannot read properties of undefined *)
  | VNum x => s ← lift (Number_toFixed x f); mret (VStr s)
  | VStr _ => throw TypeError               (* strings have no such method *)
  | VNative _ | VRef _ => throw Unsupported
  end.

Definition math_round (v : value) : M value :=
  x ← to_number v; mret (VNum (Math_round x)).

(** ToString, applied by [URLSearchParams] to every value of the record. *)
Definition to_string (v : value) : M string :=
  match v with
  | VUndef => mret "undefined"
  | VNull => mret "null"
  | VNum x => lift (Number_toString x)
  | VStr s => mret s
  | VNative _ | VRef _ => throw Unsupported
  end.

(** [new URLSearchParams(record)]: the name-value pairs in the order of the
    record (before percent-encoding, which [toString] applies later). *)
Fixpoint URLSearchParams (record : list (string * value)) : M (list (string * string)) :=
  match record with
  | [] => mret []
  | (name, v) :: rest =>
    s ← to_string v;
    pairs ← URLSearchParams rest;
    mret ((name, s) :: pairs)
  end.

(** Lines 120-128. *)
Definition buildParams (features genres : value) : M (list (string * string)) :=
  valence ← get_member features "valence";
  target_valence ← toFixed valence 2;
  energy ← get_member features "energy";
  target_energy ← toFixed energy 2;
  danceability ← get_member features "danceability";
  target_danceability ← toFixed danceability 2;
  acousticness ← get_member features "acousticness";
  target_acousticness ← toFixed acousticness 2;
  tempo ← get_member features "tempo";
  target_tempo ← math_round tempo;
  URLSearchParams
    [ ("seed_genres", genres);
      ("limit", VNum 8);
      ("target_valence", target_valence);
      ("target_energy", target_energy);
      ("target_danceability", target_danceability);
      ("target_acousticness", target_acousticness);
      ("target_tempo", target_tempo) ].

(** Lines 104-128 in one piece: the query of the recommendation request. *)
Definition getRecommendationsByMoodAndAge (moodKey : string) (ageGroup : option string)
  : M (list (string * string)) :=
  '(features, genres) ← resolveFeatures moodKey ageGroup;
  buildParams features genres.

(** ** Observations *)

(** The spec's AudioFeatureProfile: the five numbers a features object
    carries. *)
Record AudioFeatureProfile : Type := Profile {
  valence : float; energy : float; danceability : float;
  acousticness : float; tempo : float }.

Definition own_number (o : object) (key : string) : option float :=
  match own_property (props o) key with
  | Some (Data (VNum x) _ _) => Some x
  | _ => None
  end.

(** The profile stored in the object [v] refers to, if it is one. *)
Definition profile_of (h : list object) (v : value) : option AudioFeatureProfile :=
  match v with
  | VRef l =>
    o ← h !! l;
    a ← own_number o "valence"; b ← own_number o "energy";
    c ← own_number o "danceability"; d ← own_number o "acousticness";
    e ← own_number o "tempo";
    Some (Profile a b c d e)
  | _ => None
  end.

(** The result of a call as a caller sees it. *)
Definition outcome {A} (r : (error + A) * state) : error + A := fst r.
Definition final {A} (r : (error + A) * state) : state := snd r.

(** The profile and the genres a resolution hands back. *)
Definition resolved (r : (error + (value * value)) * state)
  : option (AudioFeatureProfile * value) :=
  match r with
  | (inr (features, genres), s) =>
    p ← profile_of (heap s) features; Some (p, genres)
  | _ => None
  end.


(** The state a sequence of calls leaves behind.  An exception does not
    undo the writes made before it. *)
Fixpoint after_calls (calls : list (string * option string)) (st : state) : state :=
  match calls with
  | [] => st
  | (moodKey, ageGroup) :: rest =>
    after_calls rest (final (resolveFeatures moodKey ageGroup st))
  end.

(** ** Vocabulary of the proofs *)

Definition mood_names : list string :=
  [ "happy"; "energetic"; "calm"; "sad"; "stressed" ].
Definition age_names : list string :=
  [ "13-17"; "18-25"; "26-35"; "36-50"; "50+" ].

(** The names every object literal inherits, and the two of them that
    survive [toLowerCase]. *)
Definition inherited_names : list string := map fst (props object_prototype).
Definition inherited_lower : list string := [ "constructor"; "__proto__" ].

(** A key that stands for every key no object owns. *)
Definition unlisted : string := "?".

Definition is_capital (c : ascii) : bool :=
  let n := nat_of_ascii c in ((65 <=? n) && (n <=? 90))%nat.

Fixpoint no_capital (s : string) : bool :=
  match s with
  | EmptyString => true
  | String c rest => negb (is_capital c) && no_capital rest
  end.

(** Lines 104-117 with the lower-cased key named. *)
Definition baseLowered (k : string) : M value :=
  or_else (get_member (VRef MOOD_FEATURES) k)
          (get_member (VRef MOOD_FEATURES) "happy").

Definition genresLowered (k : string) : M value :=
  or_else (get_member (VRef MOOD_GENRES) k) (mret (VStr "pop")).

Definition resolveLowered (k : string) (ageGroup : option string) : M (value * value) :=
  let ageGroup := match ageGroup with Some g => g | None => "18-25" end in
  features ← baseLowered k;
  adjustments ← ageAdjustments ageGroup;
  applyAdjustments features adjustments;;
  genres ← genresLowered k;
  mret (features, genres).

(** The tempo delta of the adjustment record an age group selects in the
    table as declared. *)
Definition tempo_delta (ageGroup : string) : option float :=
  match get_member (VRef AGE_ADJUSTMENTS) ageGroup initial with
  | (inr (VRef l), _) => o ← initial_heap !! l; own_number o "tempo"
  | _ => None
  end.


(** *** The heaps a sequence of calls can reach

    The loop writes to the object bound to [features] and to nothing else,
    and that object is one of the five records of [MOOD_FEATURES], the
    [Object] function or [Object.prototype].  A record keeps its five keys
    and changes its numbers; a built-in gains at most the property [tempo],
    with the value NaN; every [{}] of line 107 stays behind, empty. *)

Definition features_of (p : AudioFeatureProfile) : object :=
  features_literal (valence p) (energy p) (danceability p) (acousticness p) (tempo p).

Definition stray_tempo (present : bool) : list (string * slot) :=
  if present then [field "tempo" (num PrimFloat.nan)] else [].

Definition heap_of (happy energetic calm sad stressed : AudioFeatureProfile)
    (on_prototype on_ctor : bool) (fresh : list object) : list object :=
  [ Object None (props object_prototype ++ stray_tempo on_prototype);
    function_prototype;
    Object (Some FunctionPrototype) (props object_ctor ++ stray_tempo on_ctor);
    mood_features;
    features_of happy; features_of energetic; features_of calm;
    features_of sad; features_of stressed ]
  ++ drop 9 initial_heap ++ fresh.

Definition shaped (st : state) : Prop :=
  exists happy energetic calm sad stressed on_prototype on_ctor fresh,
    heap st = heap_of happy energetic calm sad stressed on_prototype on_ctor fresh.

Definition feature_targets : list loc :=
  [ features_happy; features_energetic; features_calm; features_sad;
    features_stressed; ObjectCtor; ObjectPrototype ].

Definition adjust_targets : list loc :=
  [ adjust_13_17; adjust_18_25; adjust_26_35; adjust_36_50; adjust_50_plus;
    ObjectCtor; ObjectPrototype ].
(** * The requests around the resolver

    The rest of the program: [spotify.js] outside lines 104-128, the
    Express routes of [server.js] (the JavaScript that follows the SQL in
    [supabase_enable_rls_mood_logs.sql]) and the request helpers of the
    first function of [mood.js].

    The services the program talks to are a parameter: a [network] decides
    the reply to every request from the requests sent before it.  Every
    request is recorded, so the theorems can say which requests a function
    sends and in which order. *)

(** ** Documents

    What [res.json()], [JSON.parse] and [express.json()] hand to the
    program.  An object is the list of its own properties, each key once. *)

#[local] Set Warnings "-register-all".

Inductive json : Type :=
| JNull
| JBool (b : bool)
| JNum (x : float)
| JStr (s : string)
| JArr (items : list json)
| JObj (fields : list (string * json)).

(** A JavaScript value that is a document or [undefined] is an
    [option json]. *)

(** ToBoolean. *)
Definition json_truthy (v : option json) : bool :=
  match v with
  | None | Some JNull => false
  | Some (JBool b) => b
  | Some (JNum x) => truthy (VNum x)
  | Some (JStr s) => truthy (VStr s)
  | Some (JArr _) | Some (JObj _) => true
  end.

Fixpoint lookup_field (fields : list (string * json)) (key : string) : option json :=
  match fields with
  | [] => None
  | (k, v) :: rest => if String.eqb key k then Some v else lookup_field rest key
  end.

(** The property names the program reads from a document.  None of them is
    defined by [Object.prototype], [Array.prototype], [String.prototype],
    [Number.prototype] or [Boolean.prototype], so a document that does not
    own one answers [undefined]. *)
Definition document_names : list string :=
  [ "access_token"; "tracks"; "items";
    "user_id"; "mood"; "age_group"; "note"; "spotify_id"; "listened";
    "play_seconds" ].

(** [v.key] and [v[key]]. *)
Definition read (v : option json) (key : string) : error + option json :=
  match v with
  | None | Some JNull => inl TypeError   (* cannot read properties of null *)
  | Some (JObj fields) =>
    match lookup_field fields key with
    | Some x => inr (Some x)
    | None => if existsb (String.eqb key) document_names then inr None else inl Unsupported
    end
  | Some _ => if existsb (String.eqb key) document_names then inr None else inl Unsupported
  end.

(** ToString, as a template literal and [encodeURIComponent] apply it.
    The text of an array, of an object and of a number with a fraction is
    not modelled: a computation that needs it stops with [Unsupported], and
    a theorem about the requests of such a computation has to exclude it. *)
Definition to_text (v : option json) : error + string :=
  match v with
  | None => inr "undefined"
  | Some JNull => inr "null"
  | Some (JBool b) => inr (if b then "true" else "false")
  | Some (JNum x) => Number_toString x
  | Some (JStr s) => inr s
  | Some (JArr _) | Some (JObj _) => inl Unsupported
  end.

(** [`${v}`] for an environment variable, which is a string or missing. *)
Definition template (v : option string) : string :=
  match v with
  | Some s => s
  | None => "undefined"
  end.

(** [v ? v : []] and [v || []] for a value [v] that has just been read; a
    second read of the same property of a document gives the same value. *)
Definition or_empty (v : option json) : json :=
  match v with
  | Some found => if json_truthy v then found else JArr []
  | None => JArr []
  end.

(** ** Encodings *)

Definition is_alphanumeric (c : ascii) : bool :=
  let n := nat_of_ascii c in
  ((48 <=? n) && (n <=? 57) || (65 <=? n) && (n <=? 90) || (97 <=? n) && (n <=? 122))%nat.

Fixpoint occurs (c : ascii) (s : string) : bool :=
  match s with
  | EmptyString => false
  | String d rest => Ascii.eqb c d || occurs c rest
  end.

Definition hex_digit (n : nat) : ascii :=
  match String.get n "0123456789ABCDEF" with
  | Some c => c
  | None => "0"%char
  end.

(** [%XX] for a byte. *)
Definition percent (c : ascii) : string :=
  let n := nat_of_ascii c in
  String "%" (String (hex_digit (n / 16)) (String (hex_digit (n mod 16)) "")).

(** [encodeURIComponent]: the bytes of the UTF-8 form of the string, each
    one escaped unless it is a letter, a digit or one of nine marks.  (A
    string is its sequence of bytes, as for [toLowerCase]; a string with a
    lone surrogate, for which the function throws, has no such
    sequence.) *)
Definition uri_unreserved (c : ascii) : bool :=
  is_alphanumeric c || occurs c "-_.!~*'()".

Fixpoint encodeURIComponent (s : string) : string :=
  match s with
  | EmptyString => EmptyString
  | String c rest =>
    (if uri_unreserved c then String c "" else percent c) ++ encodeURIComponent rest
  end.

(** The serializer behind [URLSearchParams.prototype.toString]
    (application/x-www-form-urlencoded): a space becomes [+], and the marks
    that stay are [*-._]. *)
Definition form_unreserved (c : ascii) : bool :=
  is_alphanumeric c || occurs c "*-._".

Fixpoint form_encode (s : string) : string :=
  match s with
  | EmptyString => EmptyString
  | String c rest =>
    (if form_unreserved c then String c ""
     else if Ascii.eqb c " " then "+"
     else percent c) ++ form_encode rest
  end.

Fixpoint form_urlencoded (pairs : list (string * string)) : string :=
  match pairs with
  | [] => ""
  | (name, v) :: rest =>
    form_encode name ++ "=" ++ form_encode v ++
    match rest with
    | [] => ""
    | _ => "&" ++ form_urlencoded rest
    end
  end.

(** [Buffer.from(s).toString("base64")]: three bytes become four digits,
    and a last group of one or two bytes is padded with [=]. *)
Definition base64_digit (n : N) : ascii :=
  match String.get (N.to_nat n)
          "ABCDEFGHIJKLMNOPQRSTUVWXYZabcdefghijklmnopqrstuvwxyz0123456789+/" with
  | Some c => c
  | None => "="%char
  end.

Fixpoint base64 (s : string) : string :=
  match s with
  | EmptyString => EmptyString
  | String a EmptyString =>
    let x := N_of_ascii a in
    String (base64_digit (N.shiftr x 2))
      (String (base64_digit (N.shiftl (N.land x 3) 4)) "==")
  | String a (String b EmptyString) =>
    let x := N_of_ascii a in
    let y := N_of_ascii b in
    String (base64_digit (N.shiftr x 2))
      (String (base64_digit (N.lor (N.shiftl (N.land x 3) 4) (N.shiftr y 4)))
        (String (base64_digit (N.shiftl (N.land y 15) 2)) "="))
  | String a (String b (String c rest)) =>
    let x := N_of_ascii a in
    let y := N_of_ascii b in
    let z := N_of_ascii c in
    String (base64_digit (N.shiftr x 2))
      (String (base64_digit (N.lor (N.shiftl (N.land x 3) 4) (N.shiftr y 4)))
        (String (base64_digit (N.lor (N.shiftl (N.land y 15) 2) (N.shiftr z 6)))
          (String (base64_digit (N.land z 63)) (base64 rest))))
  end.

(** ** Requests and replies *)

Inductive payload : Type :=
| Text (s : string)
| Json (j : json).      (* JSON.stringify(j) *)

Record request : Type := Request {
  verb : string;
  url : string;
  headers : list (string * string);
  body : option payload }.

(** A response: its status line, its body as text, and the body as a
    document when it is JSON. *)
Record response : Type := Response {
  status : nat;
  statusText : string;
  text : string;
  parsed : option json }.

Definition ok (r : response) : bool := ((200 <=? status r) && (status r <=? 299))%nat.

Inductive reply : Type :=
| Answered (r : response)
| Refused.                 (* the promise of [fetch] rejects *)

Definition network : Type := list request -> request -> reply.

Inductive failure : Type :=
| Thrown (e : error)
| Raised (message : string)   (* throw new Error(message) *)
| Unreachable                 (* [fetch] rejected *)
| Malformed.                  (* [res.json()] rejected: the body is not JSON *)

(** The tables of [spotify.js] and the requests sent so far. *)
Record world : Type := World { memory : state; sent : list request }.

Definition IO (A : Type) : Type := network -> world -> (failure + A) * world.

#[global] Instance IO_ret : MRet IO := fun A a net w => (inr a, w).
#[global] Instance IO_bind : MBind IO := fun A B f m net w =>
  match m net w with
  | (inr a, w') => f a net w'
  | (inl e, w') => (inl e, w')
  end.

Definition raise {A} (message : string) : IO A := fun net w => (inl (Raised message), w).

Definition attempt {A} (r : error + A) : IO A := fun net w =>
  match r with
  | inl e => (inl (Thrown e), w)
  | inr a => (inr a, w)
  end.

(** A synchronous stretch of the program that works on the tables. *)
Definition on_tables {A} (m : M A) : IO A := fun net w =>
  match m (memory w) with
  | (inl e, s) => (inl (Thrown e), World s (sent w))
  | (inr a, s) => (inr a, World s (sent w))
  end.

Definition fetch (r : request) : IO response := fun net w =>
  match net (sent w) r with
  | Answered a => (inr a, World (memory w) (sent w ++ [r]))
  | Refused => (inl Unreachable, World (memory w) (sent w ++ [r]))
  end.

(** [await res.json()]. *)
Definition json_of (r : response) : IO json := fun net w =>
  match parsed r with
  | Some j => (inr j, w)
  | None => (inl Malformed, w)
  end.

(** [try { body } catch (err) { handler }].  The two errors that stand for
    the limits of the model are not exceptions of the program and pass
    through. *)
Definition try_catch {A} (body : IO A) (handler : failure -> IO A) : IO A :=
  fun net w =>
    match body net w with
    | (inl (Thrown Unsupported), w') => (inl (Thrown Unsupported), w')
    | (inl (Thrown OutOfFuel), w') => (inl (Thrown OutOfFuel), w')
    | (inl f, w') => handler f net w'
    | (inr a, w') => (inr a, w')
    end.

(** [`${res.status} ${res.statusText} - ${text}`]. *)
Definition status_line (r : response) : string :=
  decimal (Z.of_nat (status r)) ++ " " ++ statusText r ++ " - " ++ text r.

(** ** spotify.js *)

Section Spotify.

(** [process.env] when the module is loaded (lines 2-3). *)
Variables SPOTIFY_CLIENT_ID SPOTIFY_CLIENT_SECRET : option string.

(** Line 52. *)
Definition rawCreds : string :=
  template SPOTIFY_CLIENT_ID ++ ":" ++ template SPOTIFY_CLIENT_SECRET.

Definition token_request (credentials : string) : request :=
  Request "POST" "https://accounts.spotify.com/api/token"
    [ ("Content-Type", "application/x-www-form-urlencoded");
      ("Authorization", "Basic " ++ credentials) ]
    (Some (Text "grant_type=client_credentials")).

(** Lines 48-75.  Line 2 reads [process.env], so the module loads under
    Node, where [Buffer] is defined: the [btoa] arm of line 55 is not
    modelled. *)
Definition getSpotifyToken : IO (option json) :=
  let credentials := base64 rawCreds in
  if negb (truthy (VStr credentials))
  then raise "Unable to encode Spotify credentials in this environment."
  else
    res ← fetch (token_request credentials);
    if negb (ok res)
    then raise ("Failed to get Spotify token: " ++ status_line res)
    else
      data ← json_of res;
      if json_truthy (Some data) then
        access_token ← attempt (read (Some data) "access_token");
        mret (if json_truthy access_token then access_token else Some JNull)
      else mret (Some JNull).

(** Line 81. *)
Definition search_url (mood : string) : string :=
  "https://api.spotify.com/v1/search?q=" ++ encodeURIComponent mood ++ "&type=track&limit=5".

Definition bearer_request (address token : string) : request :=
  Request "GET" address [ ("Authorization", "Bearer " ++ token) ] None.

(** Line 95. *)
Definition tracks_items (data : json) : IO json :=
  if json_truthy (Some data) then
    tracks ← attempt (read (Some data) "tracks");
    if json_truthy tracks then
      items ← attempt (read tracks "items");
      mret (or_empty items)
    else mret (JArr [])
  else mret (JArr []).

(** Lines 76-96. *)
Definition searchSongsByMood (mood : string) : IO json :=
  token ← getSpotifyToken;
  if negb (json_truthy token)
  then raise "No Spotify access token available."
  else
    bearer ← attempt (to_text token);
    res ← fetch (bearer_request (search_url mood) bearer);
    if negb (ok res)
    then raise ("Spotify search failed: " ++ status_line res)
    else
      data ← json_of res;
      tracks_items data.

(** Line 130. *)
Definition recommendations_url (params : list (string * string)) : string :=
  "https://api.spotify.com/v1/recommendations?" ++ form_urlencoded params.

(** Line 141. *)
Definition tracks_of (data : json) : IO json :=
  if json_truthy (Some data) then
    tracks ← attempt (read (Some data) "tracks");
    mret (or_empty tracks)
  else mret (JArr []).

(** The property key an argument selects in [AGE_ADJUSTMENTS]; a missing
    argument takes the default of line 99. *)
Definition age_key (ageGroup : option json) : error + option string :=
  match ageGroup with
  | None => inr None
  | Some g => match to_text (Some g) with
              | inr s => inr (Some s)
              | inl e => inl e
              end
  end.

(** Lines 99-142, the whole function.  It is called with whatever the
    request body holds, so the arguments are documents; a mood that is not
    a string has no [toLowerCase] to call at line 104. *)
Definition recommend (moodKey : option json) (ageGroup : option json) : IO json :=
  token ← getSpotifyToken;
  if negb (json_truthy token)
  then raise "No Spotify access token available."
  else
    params ← match moodKey with
             | Some (JStr mood) =>
               age ← attempt (age_key ageGroup);
               on_tables (getRecommendationsByMoodAndAge mood age)
             | _ => attempt (inl TypeError)
             end;
    bearer ← attempt (to_text token);
    res ← fetch (bearer_request (recommendations_url params) bearer);
    if negb (ok res)
    then raise ("Spotify recommendations failed: " ++ status_line res)
    else
      data ← json_of res;
      tracks_of data.

End Spotify.

(** ** server.js *)

(** What a route sends back: [res.status(code).json(...)]. *)
Inductive content : Type :=
| Message (s : string)        (* { error: s } *)
| MessageOf (f : failure)     (* { error: err.message }, the text being the engine's or the library's *)
| Tracks (found : json)       (* { tracks: found } *)
| Inserted (rows : json)      (* { inserted: rows } *)
| Updated (rows : json).      (* { updated: rows } *)

Record answer : Type := Answer { code : nat; sends : content }.

(** [err.message] in a [catch]. *)
Definition report (f : failure) : content :=
  match f with
  | Raised message => Message message
  | _ => MessageOf f
  end.

(** [s.replace(/\/$/, '')]. *)
Fixpoint strip_slash (s : string) : string :=
  match s with
  | EmptyString => EmptyString
  | String c EmptyString => if Ascii.eqb c "/" then EmptyString else s
  | String c rest => String c (strip_slash rest)
  end.

(** [payload[k] = v] on an object that is a list of properties: a key that
    is there keeps its place. *)
Fixpoint assign (fields : list (string * json)) (key : string) (v : json)
  : list (string * json) :=
  match fields with
  | [] => [(key, v)]
  | (k, old) :: rest =>
    if String.eqb key k then (k, v) :: rest else (k, old) :: assign rest key v
  end.

Module Server.

Section Environment.

(** [process.env] when the server starts (lines 47-51). *)
Variables SPOTIFY_CLIENT_ID SPOTIFY_CLIENT_SECRET SUPABASE_SERVICE_ROLE_KEY : option string.

Definition SUPABASE_URL : string := "https://ytykkyurraerxbrhwnge.supabase.co".

(** Lines 65-82: the server's own copy, which hands back
    [data.access_token] as it is. *)
Definition getSpotifyToken : IO (option json) :=
  let creds := base64 (rawCreds SPOTIFY_CLIENT_ID SPOTIFY_CLIENT_SECRET) in
  res ← fetch (token_request creds);
  if negb (ok res)
  then raise ("Token request failed: " ++ status_line res)
  else
    data ← json_of res;
    attempt (read (Some data) "access_token").

(** Line 91. *)
Definition search_url (q : string) : string :=
  "https://api.spotify.com/v1/search?q=" ++ encodeURIComponent q ++ "&type=track&limit=8".

(** Line 100: the same expression as line 95 of [spotify.js] without its
    first test. *)
Definition tracks_items (data : json) : IO json :=
  tracks ← attempt (read (Some data) "tracks");
  if json_truthy tracks then
    items ← attempt (read tracks "items");
    mret (or_empty items)
  else mret (JArr []).

(** Lines 85-105, [GET /api/search]; [q] is [req.query.q]. *)
Definition search (q : option json) : IO answer :=
  try_catch
    (if negb (json_truthy q)
     then mret (Answer 400 (Message "Missing q query parameter"))
     else
       token ← getSpotifyToken;
       text_of_q ← attempt (to_text q);
       bearer ← attempt (to_text token);
       apiRes ← fetch (bearer_request (search_url text_of_q) bearer);
       if negb (ok apiRes)
       then mret (Answer (status apiRes) (Message (text apiRes)))
       else
         data ← json_of apiRes;
         found ← tracks_items data;
         mret (Answer 200 (Tracks found)))
    (fun err => mret (Answer 500 (report err))).

(** Lines 111-122, [POST /api/recommendations]; [body] is [req.body]. *)
Definition recommendations (body : option json) : IO answer :=
  try_catch
    (let fields := if json_truthy body then body else Some (JObj []) in
     mood ← attempt (read fields "mood");
     age_group ← attempt (read fields "age_group");
     if negb (json_truthy mood)
     then mret (Answer 400 (Message "Missing mood in body"))
     else
       let age := if json_truthy age_group then age_group else Some (JStr "18-25") in
       tracks ← recommend SPOTIFY_CLIENT_ID SPOTIFY_CLIENT_SECRET mood age;
       mret (Answer 200 (Tracks (or_empty (Some tracks)))))
    (fun err =>
       mret (Answer 500
         match err with
         | Raised message =>
           Message (if truthy (VStr message) then message else "Failed to get recommendations")
         | _ => MessageOf err
         end)).

(** Line 139. *)
Definition allowed : list string :=
  [ "user_id"; "mood"; "age_group"; "note"; "spotify_id"; "listened"; "play_seconds" ].

(** Line 141: [for (const k of allowed) if (body[k] !== undefined) payload[k] = body[k]]. *)
Fixpoint copy_fields (body : option json) (keys : list string)
    (payload : list (string * json)) : error + list (string * json) :=
  match keys with
  | [] => inr payload
  | k :: rest =>
    match read body k with
    | inl e => inl e
    | inr (Some v) => copy_fields body rest (assign payload k v)
    | inr None => copy_fields body rest payload
    end
  end.

Definition not_configured : bool :=
  negb (truthy (VStr SUPABASE_URL)) ||
  negb (match SUPABASE_SERVICE_ROLE_KEY with Some key => truthy (VStr key) | None => false end).

Definition supabase_request (verb address : string) (body : option payload) : request :=
  Request verb address
    [ ("Content-Type", "application/json");
      ("apikey", template SUPABASE_SERVICE_ROLE_KEY);
      ("Authorization", "Bearer " ++ template SUPABASE_SERVICE_ROLE_KEY);
      ("Prefer", "return=representation") ]
    body.

(** Line 148. *)
Definition insertUrl : string := strip_slash SUPABASE_URL ++ "/rest/v1/mood_logs".

(** Lines 172 and 205: [JSON.parse(text)], or the text when it is not JSON. *)
Definition rows_of (r : response) : json :=
  match parsed r with
  | Some data => data
  | None => JStr (text r)
  end.

(** Lines 131-179, [POST /api/log]. *)
Definition log (body : option json) : IO answer :=
  try_catch
    (if not_configured
     then mret (Answer 500 (Message "SUPABASE_URL or SUPABASE_SERVICE_ROLE_KEY not configured on server."))
     else
       payload ← attempt (copy_fields body allowed []);
       user_id ← attempt (read (Some (JObj payload)) "user_id");
       let payload := if json_truthy user_id then payload
                      else assign payload "user_id" (JStr "guest") in
       mood ← attempt (read (Some (JObj payload)) "mood");
       if negb (json_truthy mood)
       then mret (Answer 400 (Message "Missing mood in payload"))
       else
         insertRes ← fetch (supabase_request "POST" insertUrl (Some (Json (JObj payload))));
         if negb (ok insertRes)
         then mret (Answer (status insertRes) (Message (text insertRes)))
         else mret (Answer 200 (Inserted (rows_of insertRes))))
    (fun err => mret (Answer 500 (report err))).

(** Line 190. *)
Definition updateUrl (id : string) : string :=
  strip_slash SUPABASE_URL ++ "/rest/v1/mood_logs?id=eq." ++ encodeURIComponent id.

(** Lines 182-211, [PATCH /api/log/:id]; [id] is [req.params.id]. *)
Definition update (id : string) (body : option json) : IO answer :=
  try_catch
    (if negb (truthy (VStr id))
     then mret (Answer 400 (Message "Missing id param"))
     else if not_configured
     then mret (Answer 500 (Message "SUPABASE_URL or SUPABASE_SERVICE_ROLE_KEY not configured on server."))
     else
       updateRes ← fetch (supabase_request "PATCH" (updateUrl id) (option_map Json body));
       if negb (ok updateRes)
       then mret (Answer (status updateRes) (Message (text updateRes)))
       else mret (Answer 200 (Updated (rows_of updateRes))))
    (fun err => mret (Answer 500 (report err))).

End Environment.

End Server.

(** ** mood.js, the first function expression (lines 2-177) *)

Module Page.

Section Window.

(** [window.location.origin], or [None] when reading it throws. *)
Variable origin : option string.

Definition API_FALLBACK : string := "http://localhost:3002".

(** Lines 5-11. *)
Definition getApiBase : string :=
  match origin with
  | Some o =>
    if truthy (VStr o) && negb (String.eqb o "null") && negb (String.prefix "file:" o)
    then o else API_FALLBACK
  | None => API_FALLBACK
  end.

(** [txt || `Status ${res.status}`]. *)
Definition complaint (r : response) : string :=
  if truthy (VStr (text r)) then text r
  else "Status " ++ decimal (Z.of_nat (status r)).

(** [json.tracks || []]. *)
Definition tracks_or_none (data : json) : IO json :=
  tracks ← attempt (read (Some data) "tracks");
  mret (or_empty tracks).

(** Lines 44-61. *)
Definition getRecommendations (mood age : string) : IO json :=
  let base := getApiBase in
  try_catch
    (res ← fetch (Request "POST" (base ++ "/api/recommendations")
                    [ ("Content-Type", "application/json") ]
                    (Some (Json (JObj [ ("mood", JStr mood); ("age_group", JStr age) ]))));
     if negb (ok res)
     then raise (complaint res)
     else
       data ← json_of res;
       tracks_or_none data)
    (fun err => mret (JArr [])).

(** Lines 63-77. *)
Definition searchTracks (query : string) : IO json :=
  let base := getApiBase in
  try_catch
    (res ← fetch (Request "GET" (base ++ "/api/search?q=" ++ encodeURIComponent query) [] None);
     if negb (ok res)
     then raise (complaint res)
     else
       data ← json_of res;
       tracks_or_none data)
    (fun err => mret (JArr [])).

End Window.

End Page.

(** ** Vocabulary of the theorems about requests *)

(** How often a character occurs in a string. *)
Fixpoint occurrences (c : ascii) (s : string) : nat :=
  match s with
  | EmptyString => 0
  | String d rest => (if Ascii.eqb c d then 1 else 0) + occurrences c rest
  end.

Fixpoint every (p : ascii -> bool) (s : string) : bool :=
  match s with
  | EmptyString => true
  | String c rest => p c && every p rest
  end.

(** The characters of a base64 text. *)
Definition base64_character (c : ascii) : bool :=
  is_alphanumeric c || occurs c "+/=".

(** A network that answers the n-th request with the n-th reply of a
    list, and refuses the requests after them. *)
Definition scripted (replies : list reply) : network :=
  fun history _ => nth (length history) replies Refused.

Definition no_requests (st : state) : world := World st [].

(** The text of a JSON string. *)
Definition quoted (s : string) : string :=
  String (ascii_of_nat 34) (s ++ String (ascii_of_nat 34) "").

(** A 2xx answer that holds the document [{ key: "value" }]. *)
Definition answer_with (key value : string) : reply :=
  Answered (Response 200 "OK" ("{" ++ quoted key ++ ":" ++ quoted value ++ "}")
              (Some (JObj [(key, JStr value)]))).

(** * Reasoning about a call *)

(** ** Running a computation one step at a time *)

Section Steps.
Context {A B : Type} (m : M A) (f : A -> M B) (s : state).

Lemma bind_run (a : A) (s' : state) :
  m s = (inr a, s') -> (m ≫= f) s = f a s'.
Proof. intros E. unfold mbind, M_bind. rewrite E. reflexivity. Qed.

Lemma bind_cong_l (m' : M A) :
  m s = m' s -> (m ≫= f) s = (m' ≫= f) s.
Proof. intros E. unfold mbind, M_bind. rewrite E. reflexivity. Qed.

Lemma bind_cong_r (f' : A -> M B) :
  (forall a s', m s = (inr a, s') -> f a s' = f' a s') ->
  (m ≫= f) s = (m ≫= f') s.
Proof.
  intros E. unfold mbind, M_bind.
  destruct (m s) as [[e|a] s'] eqn:R; [reflexivity|]. apply E. reflexivity.
Qed.
End Steps.

Lemma or_else_falsy (a b : M value) (s : state) (v : value) :
  a s = (inr v, s) -> truthy v = false -> or_else a b s = b s.
Proof.
  intros E F. unfold or_else. rewrite (bind_run _ _ _ _ _ E), F. reflexivity.
Qed.

(** A property read changes nothing. *)
Lemma get_member_state (base : value) (key : string) (st st' : state)
    (r : error + value) :
  get_member base key st = (r, st') -> st' = st.
Proof.
  unfold get_member, get_heap, lift, throw, mbind, M_bind, mret, M_ret.
  destruct base; try (intros [= _ <-]; reflexivity).
  destruct (find_property _ _ _ _) as [e|[[v ? ?|[]]|]];
    intros [= _ <-]; reflexivity.
Qed.

Lemma baseLowered_state (k : string) (st st' : state) (r : error + value) :
  baseLowered k st = (r, st') -> st' = st.
Proof.
  unfold baseLowered, or_else, mbind, M_bind.
  destruct (get_member _ k st) as [[e|v] s1] eqn:E1.
  - intros [= _ <-]. apply (get_member_state _ _ _ _ _ E1).
  - apply get_member_state in E1. subst s1.
    destruct (truthy v); [intros [= _ <-]; reflexivity|].
    apply get_member_state.
Qed.

(** ** Keys that no object on the chain owns *)

Lemma own_property_absent (ps : list (string * slot)) (key : string) :
  ~ In key (map fst ps) -> own_property ps key = None.
Proof.
  induction ps as [|[k s] rest IH]; intros N; [reflexivity|].
  cbn [own_property]. destruct (String.eqb_spec key k) as [->|_].
  - exfalso. apply N. left. reflexivity.
  - apply IH. intros I. apply N. right. exact I.
Qed.

(** A table written as an object literal: one object, then
    [Object.prototype]. *)
Lemma get_member_absent (st : state) (l p : loc) (o op : object) (key : string) :
  heap st !! l = Some o -> proto o = Some p ->
  heap st !! p = Some op -> proto op = None ->
  ~ In key (map fst (props o)) -> ~ In key (map fst (props op)) ->
  get_member (VRef l) key st = (inr VUndef, st).
Proof.
  intros Hl Hp Hop Hnone No Nop.
  unfold get_member, get_heap, lift, chain_fuel, mbind, M_bind.
  destruct (heap st) as [|o0 h] eqn:E; [discriminate|].
  cbn [length find_property]. rewrite Hl, (own_property_absent _ _ No), Hp.
  rewrite Hop, (own_property_absent _ _ Nop), Hnone. reflexivity.
Qed.

(** ** Lower-case keys *)

Lemma lower_ascii_no_capital (c : ascii) : is_capital (lower_ascii c) = false.
Proof.
  destruct c as [[] [] [] [] [] [] [] []]; vm_compute; reflexivity.
Qed.

Lemma toLowerCase_no_capital (s : string) : no_capital (toLowerCase s) = true.
Proof.
  induction s as [|c rest IH]; [reflexivity|].
  cbn [toLowerCase no_capital]. rewrite lower_ascii_no_capital, IH. reflexivity.
Qed.

Lemma In_dec_string (k : string) (names : list string) :
  {In k names} + {~ In k names}.
Proof. apply in_dec, string_dec. Qed.

Ltac each_name H := cbn in H; repeat (destruct H as [<-|H]; [|]); [..|destruct H].

(** After [toLowerCase], a key either is one of seven names or is owned by
    no object on the chain of a table. *)
Lemma mood_key_cases (k : string) :
  no_capital k = true ->
  In k (mood_names ++ inherited_lower) \/ ~ In k (mood_names ++ inherited_names).
Proof.
  intros L. destruct (In_dec_string k (mood_names ++ inherited_names)) as [I|N];
    [|right; exact N].
  left. cbn in I.
  repeat (destruct I as [<-|I]; [first [discriminate L | cbn; tauto]|]).
  destruct I.
Qed.

Lemma unmatched_lower (k : string) :
  no_capital k = true ->
  ~ In k (mood_names ++ inherited_lower) -> ~ In k (mood_names ++ inherited_names).
Proof. intros L N. destruct (mood_key_cases k L) as [I|I]; [contradiction|exact I]. Qed.

Lemma existsb_absent (k : string) (names : list string) :
  ~ In k names -> existsb (String.eqb k) names = false.
Proof.
  induction names as [|n rest IH]; intros N; [reflexivity|]. cbn [existsb].
  destruct (String.eqb_spec k n) as [->|_]; [exfalso; apply N; left; reflexivity|].
  apply IH. intros I. apply N. right. exact I.
Qed.

Lemma unlisted_unmatched : ~ In unlisted (mood_names ++ inherited_names).
Proof. vm_compute. intuition discriminate. Qed.

Lemma unlisted_no_bracket : ~ In unlisted (age_names ++ inherited_names).
Proof. vm_compute. intuition discriminate. Qed.

(** A key outside [names] is ["tempo"] or is outside [names ++ ["tempo"]]. *)
Lemma tempo_or_absent (k : string) (names : list string) :
  ~ In k names -> k = "tempo" \/ ~ In k (names ++ ["tempo"]).
Proof.
  intros N. destruct (string_dec k "tempo") as [->|D]; [left; reflexivity|].
  right. rewrite in_app_iff. cbn. intuition congruence.
Qed.

(** ** Symbolic execution of the lookups *)

Ltac absent_key :=
  match goal with
  | N : ~ In ?k _ |- ~ In ?k _ =>
    let I := fresh in intros I; apply N; revert I; vm_compute; tauto
  end.

Ltac lookup_absent :=
  eapply get_member_absent;
  [ vm_compute; reflexivity | reflexivity | vm_compute; reflexivity | reflexivity
  | absent_key | absent_key ].

(** ** The heaps a sequence of calls can reach *)

Ltac unshape S st :=
  let ph := fresh "ph" in let pe := fresh "pe" in let pc := fresh "pc" in
  let ps := fresh "ps" in let pt := fresh "pt" in
  let bp := fresh "bp" in let bc := fresh "bc" in
  let fr := fresh "fr" in let h := fresh "h" in let tr := fresh "tr" in
  destruct S as (ph & pe & pc & ps & pt & bp & bc & fr & S);
  destruct st as [h tr]; cbn [heap] in S; subst h.

Lemma initial_shaped : shaped initial.
Proof.
  exists (Profile 0.8 0.75 0.85 0.15 120), (Profile 0.85 0.85 0.8 0.1 130),
         (Profile 0.3 0.2 0.3 0.7 70), (Profile 0.2 0.25 0.25 0.8 60),
         (Profile 0.35 0.3 0.4 0.6 75), false, false, [].
  reflexivity.
Qed.

Lemma shaped_snoc (h : list object) (tr tr' : list event) (o : object) :
  shaped (State h tr) -> shaped (State (h ++ [o]) tr').
Proof.
  intros (ph & pe & pc & ps & pt & bp & bc & fr & H). cbn [heap] in H. subst h.
  exists ph, pe, pc, ps, pt, bp, bc, (fr ++ [o])%list. cbn [heap].
  unfold heap_of. rewrite <- !app_assoc. reflexivity.
Qed.

Create HintDb shaped.
#[local] Hint Resolve initial_shaped shaped_snoc : shaped.

(** *** Line 104 *)

Lemma base_unmatched_shaped (k : string) (st : state) :
  shaped st -> ~ In k (mood_names ++ inherited_names) ->
  baseLowered k st = (inr (VRef features_happy), st).
Proof.
  intros S N. unshape S st. unfold baseLowered.
  destruct (tempo_or_absent k _ N) as [->|N']; [destruct bp; vm_compute; reflexivity|].
  erewrite or_else_falsy;
    [vm_compute; reflexivity | destruct bp; lookup_absent | reflexivity].
Qed.

Lemma base_happy_shaped (st : state) :
  shaped st -> baseLowered "happy" st = (inr (VRef features_happy), st).
Proof. intros S. unshape S st. destruct bp; vm_compute; reflexivity. Qed.

Lemma base_lookup_shaped (k : string) (st : state) :
  no_capital k = true -> shaped st ->
  exists l, In l feature_targets /\ baseLowered k st = (inr (VRef l), st).
Proof.
  intros L S. destruct (mood_key_cases k L) as [Hk|Hk].
  - unshape S st.
    each_name Hk; destruct bp; eexists; (apply conj; [|vm_compute; reflexivity]);
      vm_compute; tauto.
  - exists features_happy. apply conj; [vm_compute; tauto|].
    apply base_unmatched_shaped; assumption.
Qed.

(** *** Line 117 *)

Lemma genres_unmatched_shaped (k : string) (st : state) :
  shaped st -> ~ In k (mood_names ++ inherited_names) ->
  genresLowered k st = (inr (VStr "pop"), st).
Proof.
  intros S N. unshape S st. unfold genresLowered.
  destruct (tempo_or_absent k _ N) as [->|N']; [destruct bp; vm_compute; reflexivity|].
  erewrite or_else_falsy;
    [vm_compute; reflexivity | destruct bp; lookup_absent | reflexivity].
Qed.

Lemma genres_happy_shaped (st : state) :
  shaped st ->
  genresLowered "happy" st = (inr (VStr "pop,indie-pop,electro-pop"), st).
Proof. intros S. unshape S st. destruct bp; vm_compute; reflexivity. Qed.

Lemma genres_lookup_shaped (k : string) (st : state) :
  no_capital k = true -> shaped st ->
  exists genres, genresLowered k st = (inr genres, st).
Proof.
  intros L S. destruct (mood_key_cases k L) as [Hk|Hk].
  - unshape S st. each_name Hk; destruct bp; eexists; vm_compute; reflexivity.
  - exists (VStr "pop"). apply genres_unmatched_shaped; assumption.
Qed.

(** *** Line 107 *)

Lemma adjustments_unmatched_shaped (g : string) (st : state) :
  shaped st -> ~ In g (age_names ++ inherited_names) ->
  ageAdjustments g st
  = (inr (VRef (length (heap st))), State (heap st ++ [literal []]) (trace st)).
Proof.
  intros S N. unshape S st. unfold ageAdjustments.
  destruct (tempo_or_absent g _ N) as [->|N'].
  - destruct bp;
      (erewrite or_else_falsy; [reflexivity | vm_compute; reflexivity | reflexivity]).
  - erewrite or_else_falsy; [reflexivity | destruct bp; lookup_absent | reflexivity].
Qed.

Lemma adjustments_lookup_shaped (g : string) (st : state) :
  shaped st ->
  (exists a, In a adjust_targets /\ ageAdjustments g st = (inr (VRef a), st))
  \/ (exists n, ageAdjustments g st = (inr (VNative n), st))
  \/ ageAdjustments g st
     = (inr (VRef (length (heap st))), State (heap st ++ [literal []]) (trace st)).
Proof.
  intros S. destruct (In_dec_string g (age_names ++ inherited_names)) as [Hg|Hg].
  - unshape S st. unfold ageAdjustments.
    each_name Hg; destruct bp;
      first [ left; eexists; (apply conj; [|vm_compute; reflexivity]); vm_compute; tauto
            | right; left; eexists; vm_compute; reflexivity ].
  - right; right. apply adjustments_unmatched_shaped; assumption.
Qed.

(** *** Lines 108-114 *)

Lemma keys_lookup_shaped (st : state) :
  shaped st -> get_member (VRef ObjectCtor) "keys" st = (inr (VNative "keys"), st).
Proof. intros S. unshape S st. destruct bc; vm_compute; reflexivity. Qed.

Lemma applyAdjustments_native (features : value) (n : string) (st : state) :
  shaped st -> applyAdjustments features (VNative n) st = (inr tt, st).
Proof. intros S. unshape S st. destruct bc; vm_compute; reflexivity. Qed.

Lemma applyAdjustments_fresh (features : value) (h : list object) (tr : list event) :
  shaped (State h tr) ->
  applyAdjustments features (VRef (length h)) (State (h ++ [literal []]) tr)
  = (inr tt, State (h ++ [literal []]) tr).
Proof.
  intros S. unfold applyAdjustments, Object_keys.
  erewrite bind_run.
  2:{ erewrite bind_run.
      2:{ apply keys_lookup_shaped. eapply shaped_snoc, S. }
      unfold get_heap, mbind, M_bind. cbn [heap].
      rewrite list_lookup_middle by reflexivity. reflexivity. }
  reflexivity.
Qed.

Ltac reshape fr :=
  unfold shaped; cbn [heap];
  first
    [ eexists (Profile _ _ _ _ _), (Profile _ _ _ _ _), (Profile _ _ _ _ _),
        (Profile _ _ _ _ _), (Profile _ _ _ _ _), false, false, fr; reflexivity
    | eexists (Profile _ _ _ _ _), (Profile _ _ _ _ _), (Profile _ _ _ _ _),
        (Profile _ _ _ _ _), (Profile _ _ _ _ _), true, false, fr; reflexivity
    | eexists (Profile _ _ _ _ _), (Profile _ _ _ _ _), (Profile _ _ _ _ _),
        (Profile _ _ _ _ _), (Profile _ _ _ _ _), false, true, fr; reflexivity
    | eexists (Profile _ _ _ _ _), (Profile _ _ _ _ _), (Profile _ _ _ _ _),
        (Profile _ _ _ _ _), (Profile _ _ _ _ _), true, true, fr; reflexivity ].

(** The loop over a table entry or a built-in, for each object [features]
    can be bound to. *)
Lemma applyAdjustments_shaped (l a : loc) (st : state) :
  In l feature_targets -> In a adjust_targets -> shaped st ->
  exists st', applyAdjustments (VRef l) (VRef a) st = (inr tt, st') /\ shaped st'.
Proof.
  intros Hl Ha S. unshape S st.
  destruct ph, pe, pc, ps, pt.
  each_name Hl; each_name Ha; destruct bp, bc;
    (eexists; apply conj; [vm_compute; reflexivity | reshape fr]).
Qed.

(** Lines 107-114 together. *)
Lemma adjustment_phase_shaped (l : loc) (g : string) (st : state) :
  In l feature_targets -> shaped st ->
  exists adjustments st1 st2,
    ageAdjustments g st = (inr adjustments, st1)
    /\ applyAdjustments (VRef l) adjustments st1 = (inr tt, st2)
    /\ shaped st2.
Proof.
  intros Hl S.
  destruct (adjustments_lookup_shaped g st S) as [(a & Ha & E)|[(n & E)|E]].
  - destruct (applyAdjustments_shaped l a st Hl Ha S) as (st2 & E2 & S2).
    exists (VRef a), st, st2. auto.
  - exists (VNative n), st, st. auto using applyAdjustments_native.
  - destruct st as [h tr]. cbn [heap trace] in E.
    exists (VRef (length h)), (State (h ++ [literal []]) tr), (State (h ++ [literal []]) tr).
    repeat apply conj; [exact E | apply applyAdjustments_fresh, S | eapply shaped_snoc, S].
Qed.

(** *** Lines 104-117 *)

Lemma resolveFeatures_lowered (moodKey : string) (ageGroup : option string) :
  resolveFeatures moodKey ageGroup = resolveLowered (toLowerCase moodKey) ageGroup.
Proof. reflexivity. Qed.

Lemma resolveLowered_shaped (k : string) (ageGroup : option string) (st : state) :
  no_capital k = true -> shaped st ->
  exists features genres st',
    resolveLowered k ageGroup st = (inr (features, genres), st') /\ shaped st'.
Proof.
  intros L S. unfold resolveLowered.
  destruct (base_lookup_shaped k st L S) as (l & Hl & E1).
  rewrite (bind_run _ _ _ _ _ E1).
  destruct (adjustment_phase_shaped l
              match ageGroup with Some g => g | None => "18-25" end st Hl S)
    as (adjustments & st1 & st2 & E2 & E3 & S2).
  rewrite (bind_run _ _ _ _ _ E2), (bind_run _ _ _ _ _ E3).
  destruct (genres_lookup_shaped k st2 L S2) as (genres & E4).
  rewrite (bind_run _ _ _ _ _ E4).
  exists (VRef l), genres, st2. auto.
Qed.

Lemma after_calls_shaped (calls : list (string * option string)) (st : state) :
  shaped st -> shaped (after_calls calls st).
Proof.
  revert st. induction calls as [|[moodKey ageGroup] rest IH]; intros st S; [exact S|].
  cbn [after_calls]. apply IH.
  destruct (resolveLowered_shaped (toLowerCase moodKey) ageGroup st
              (toLowerCase_no_capital moodKey) S) as (f & g & st' & E & S').
  rewrite resolveFeatures_lowered, E. exact S'.
Qed.

#[local] Hint Resolve after_calls_shaped : shaped.

(** ** Every call is one of finitely many *)

Lemma unlisted_age (k g : string) (st : state) :
  shaped st -> ~ In g (age_names ++ inherited_names) ->
  resolveLowered k (Some g) st = resolveLowered k (Some unlisted) st.
Proof.
  intros S N. unfold resolveLowered. apply bind_cong_r. intros features s1 E1.
  apply baseLowered_state in E1. subst s1. apply bind_cong_l.
  rewrite !adjustments_unmatched_shaped; auto using unlisted_no_bracket.
Qed.

Lemma unlisted_mood (k : string) (ageGroup : option string) (st : state) :
  shaped st -> ~ In k (mood_names ++ inherited_names) ->
  resolveLowered k ageGroup st = resolveLowered unlisted ageGroup st.
Proof.
  intros S N. unfold resolveLowered.
  rewrite (bind_run _ _ _ _ _ (base_unmatched_shaped k st S N)).
  rewrite (bind_run _ _ _ _ _ (base_unmatched_shaped unlisted st S unlisted_unmatched)).
  destruct (adjustment_phase_shaped features_happy
              match ageGroup with Some g => g | None => "18-25" end st
              ltac:(vm_compute; tauto) S)
    as (adjustments & st1 & st2 & E2 & E3 & S2).
  rewrite !(bind_run _ _ _ _ _ E2), !(bind_run _ _ _ _ _ E3).
  rewrite (bind_run _ _ _ _ _ (genres_unmatched_shaped k st2 S2 N)).
  rewrite (bind_run _ _ _ _ _ (genres_unmatched_shaped unlisted st2 S2 unlisted_unmatched)).
  reflexivity.
Qed.

(** The case analysis the claims about a freshly loaded module go through:
    the lower-cased mood key is one of seven names or unlisted, the age
    group is left out, one of seventeen names or unlisted. *)
Ltac mood_cases :=
  rewrite ?resolveFeatures_lowered;
  match goal with
  | |- context [toLowerCase ?m] =>
    let L := fresh "L" in
    let k := fresh "k" in
    let Hk := fresh "Hk" in
    pose proof (toLowerCase_no_capital m) as L;
    generalize dependent (toLowerCase m); intros k L;
    destruct (mood_key_cases k L) as [Hk|Hk];
    [ each_name Hk | rewrite ?(unlisted_mood k _ initial initial_shaped Hk) ]; clear L
  end.

Ltac age_cases g :=
  let Hg := fresh "Hg" in
  destruct (In_dec_string g (age_names ++ inherited_names)) as [Hg|Hg];
  [ each_name Hg | rewrite ?(unlisted_age _ g initial initial_shaped Hg) ].

(** * The claims *)

(** ** Totality of the resolver *)

(** C9: for every mood string and every age group, given or left out, the
    lookups, the adjustment loop and the clamping of lines 104-117 run to
    completion: no exception is thrown, in a freshly loaded module and after
    any sequence of earlier calls. *)
Theorem resolveFeatures_never_throws
    (calls : list (string * option string))
    (moodKey : string) (ageGroup : option string) :
  exists features genres st,
    resolveFeatures moodKey ageGroup (after_calls calls initial)
    = (inr (features, genres), st).
Proof.
  destruct (resolveLowered_shaped (toLowerCase moodKey) ageGroup
              (after_calls calls initial) (toLowerCase_no_capital moodKey)
              (after_calls_shaped calls initial initial_shaped))
    as (features & genres & st & E & _).
  exists features, genres, st. rewrite resolveFeatures_lowered. exact E.
Qed.

(** ** The concrete scenario and the tempo bound *)

(** C7: on a freshly loaded module, mood "sad" with age group "13-17"
    yields valence 0.2, energy 0.28, danceability 0.3, acousticness 0.8 and
    the genres "indie,alternative,folk", as the scenario says, but tempo 1
    where the scenario says 70. *)
Theorem sad_13_17_scenario :
  resolved (resolveFeatures "sad" (Some "13-17") initial)
    = Some (Profile 0.2 0.28 0.3 0.8 1, VStr "indie,alternative,folk")
  /\ PrimFloat.eqb 1 70 = false.
Proof. apply conj; vm_compute; reflexivity. Qed.

(** C1: the profile resolved for "sad" and "13-17" has its four bounded
    fields in [0,1] and a tempo below the floor of 50. *)
Theorem sad_13_17_tempo_below_floor :
  exists p genres,
    resolved (resolveFeatures "sad" (Some "13-17") initial) = Some (p, genres)
    /\ forallb (fun x => PrimFloat.leb 0 x && PrimFloat.leb x 1)
         [valence p; energy p; danceability p; acousticness p] = true
    /\ PrimFloat.ltb (tempo p) 50 = true.
Proof.
  exists (Profile 0.2 0.28 0.3 0.8 1), (VStr "indie,alternative,folk").
  repeat apply conj; vm_compute; reflexivity.
Qed.

(** X19, the same on every first call: whatever the mood and the age group, the
    four bounded fields end within [0,1]; the tempo is 1 for each of the
    five brackets and the untouched base tempo otherwise. *)
Lemma tempo_is_one_for_every_bracket (moodKey : string) (ageGroup : option string) :
  ~ In (toLowerCase moodKey) inherited_lower ->
  exists p genres,
    resolved (resolveFeatures moodKey ageGroup initial) = Some (p, genres)
    /\ forallb (fun x => PrimFloat.leb 0 x && PrimFloat.leb x 1)
         [valence p; energy p; danceability p; acousticness p] = true
    /\ PrimFloat.eqb (tempo p) 1
       = existsb (String.eqb match ageGroup with Some g => g | None => "18-25" end)
                 age_names
    /\ PrimFloat.ltb (tempo p) 50 = PrimFloat.eqb (tempo p) 1.
Proof.
  intros N. rewrite resolveFeatures_lowered.
  pose proof (toLowerCase_no_capital moodKey) as L.
  generalize dependent (toLowerCase moodKey). intros k N L.
  destruct (mood_key_cases k L) as [Hk|Hk];
    [ each_name Hk; try (exfalso; apply N; cbn; tauto)
    | rewrite (unlisted_mood k _ initial initial_shaped Hk) ];
    (destruct ageGroup as [g|];
     [ destruct (In_dec_string g (age_names ++ inherited_names)) as [Hg|Hg];
       [ each_name Hg
       | rewrite (unlisted_age _ g initial initial_shaped Hg);
         rewrite (existsb_absent g age_names)
           by (intros I; apply Hg, in_or_app; left; exact I) ]
     | ]);
    eexists _, _; repeat apply conj; vm_compute; reflexivity.
Qed.

(** C2: for "happy" and "26-35" the base tempo is 120 and the delta -5; the
    floor of 50 would leave 115, the resolved tempo is 1. *)
Theorem happy_26_35_tempo :
  exists p genres,
    resolved (resolveFeatures "happy" (Some "26-35") initial) = Some (p, genres)
    /\ tempo p = 1%float
    /\ tempo_delta "26-35" = Some (-5)%float
    /\ Math_max 50 (120 + -5) = 115%float.
Proof.
  exists (Profile 0.8 0.75 0.85 (0.15 + 0.03) 1), (VStr "pop,indie-pop,electro-pop").
  repeat apply conj; vm_compute; reflexivity.
Qed.

(** ** Repeated calls *)

(** C3: two calls in sequence with mood "sad" and age group "13-17".  The
    object handed back is the entry of the table, the first call rewrites
    that entry, and the second call starts from the rewritten entry and
    hands back a different profile. *)
Theorem second_call_differs :
  let first := resolveFeatures "sad" (Some "13-17") initial in
  let second := resolveFeatures "sad" (Some "13-17") (final first) in
  outcome (get_member (VRef MOOD_FEATURES) "sad" initial) = inr (VRef features_sad)
  /\ outcome first = inr (VRef features_sad, VStr "indie,alternative,folk")
  /\ profile_of initial_heap (VRef features_sad) = Some (Profile 0.2 0.25 0.25 0.8 60)
  /\ resolved first = Some (Profile 0.2 0.28 0.3 0.8 1, VStr "indie,alternative,folk")
  /\ profile_of (heap (final first)) (VRef features_sad) = Some (Profile 0.2 0.28 0.3 0.8 1)
  /\ resolved second
     = Some (Profile 0.2 (0.28 + 0.03) 0.35 0.8 1, VStr "indie,alternative,folk")
  /\ PrimFloat.eqb 0.28 (0.28 + 0.03) = false.
Proof. repeat apply conj; vm_compute; reflexivity. Qed.

(** ** The fallbacks *)

(** C4, as stated, fails: an unmatched mood gets the genres "pop", the mood
    "happy" gets "pop,indie-pop,electro-pop". *)
Lemma furious_is_not_happy :
  resolved (resolveFeatures "furious" (Some "18-25") initial)
  <> resolved (resolveFeatures "happy" (Some "18-25") initial).
Proof. vm_compute. discriminate. Qed.

(** C4, amended: a mood whose lower-cased form is neither a key of the
    table nor "constructor" or "__proto__" selects the same object as
    "happy" does, leaves the same heap behind, and gets the genres "pop";
    this holds in a freshly loaded module and after any sequence of calls. *)
Theorem unmatched_mood_resolves_as_happy
    (calls : list (string * option string))
    (moodKey : string) (ageGroup : option string) :
  ~ In (toLowerCase moodKey) (mood_names ++ inherited_lower) ->
  exists features st,
    resolveFeatures "happy" ageGroup (after_calls calls initial)
    = (inr (features, VStr "pop,indie-pop,electro-pop"), st)
    /\ resolveFeatures moodKey ageGroup (after_calls calls initial)
       = (inr (features, VStr "pop"), st).
Proof.
  intros N.
  assert (S : shaped (after_calls calls initial)) by auto with shaped.
  pose proof (unmatched_lower _ (toLowerCase_no_capital moodKey) N) as N'.
  rewrite !resolveFeatures_lowered. change (toLowerCase "happy") with "happy".
  generalize dependent (toLowerCase moodKey). intros k _ N.
  generalize dependent (after_calls calls initial). intros st S.
  unfold resolveLowered.
  rewrite (bind_run _ _ _ _ _ (base_unmatched_shaped k st S N)).
  rewrite (bind_run _ _ _ _ _ (base_happy_shaped st S)).
  destruct (adjustment_phase_shaped features_happy
              match ageGroup with Some g => g | None => "18-25" end st
              ltac:(vm_compute; tauto) S)
    as (adjustments & st1 & st2 & E2 & E3 & S2).
  rewrite !(bind_run _ _ _ _ _ E2), !(bind_run _ _ _ _ _ E3).
  rewrite (bind_run _ _ _ _ _ (genres_unmatched_shaped k st2 S2 N)).
  rewrite (bind_run _ _ _ _ _ (genres_happy_shaped st2 S2)).
  exists (VRef features_happy), st2. apply conj; reflexivity.
Qed.

Lemma unmatched_mood_resolves_as_happy_witness :
  exists features st,
    resolveFeatures "happy" (Some "13-17")
      (after_calls [("calm", None); ("sad", Some "50+")] initial)
    = (inr (features, VStr "pop,indie-pop,electro-pop"), st)
    /\ resolveFeatures "Furious" (Some "13-17")
         (after_calls [("calm", None); ("sad", Some "50+")] initial)
       = (inr (features, VStr "pop"), st).
Proof.
  apply (unmatched_mood_resolves_as_happy
           [("calm", None); ("sad", Some "50+")] "Furious" (Some "13-17")).
  vm_compute. intuition discriminate.
Defined.



(** C6 holds on the first call: in a freshly loaded module, for every mood
    string and every age group string that is none of the five brackets,
    the call hands back the object that line 104 selects, with every object
    of the initial heap, hence the profile, as it was; no arm of the loop
    runs. *)
Theorem unmatched_age_leaves_base_profile (moodKey ageGroup : string) :
  ~ In ageGroup age_names ->
  exists features genres fresh,
    baseFeatures moodKey initial = (inr features, initial)
    /\ resolveFeatures moodKey (Some ageGroup) initial
       = (inr (features, genres), State (initial_heap ++ fresh) [])
    /\ profile_of (initial_heap ++ fresh) features = profile_of initial_heap features.
Proof.
  intros N. change (baseFeatures moodKey) with (baseLowered (toLowerCase moodKey)).
  rewrite resolveFeatures_lowered.
  pose proof (toLowerCase_no_capital moodKey) as L.
  generalize dependent (toLowerCase moodKey). intros k L.
  destruct (mood_key_cases k L) as [Hk|Hk];
    [ each_name Hk
    | rewrite (unlisted_mood k _ initial initial_shaped Hk),
              (base_unmatched_shaped k initial initial_shaped Hk) ];
    (age_cases ageGroup; try (exfalso; apply N; cbn; tauto));
    eexists _, _, _; repeat apply conj; vm_compute; reflexivity.
Qed.

Lemma unmatched_age_leaves_base_profile_witness :
  exists features genres fresh,
    baseFeatures "calm" initial = (inr features, initial)
    /\ resolveFeatures "calm" (Some "90+") initial
       = (inr (features, genres), State (initial_heap ++ fresh) [])
    /\ profile_of (initial_heap ++ fresh) features = profile_of initial_heap features.
Proof.
  apply (unmatched_age_leaves_base_profile "calm" "90+").
  vm_compute. intuition discriminate.
Defined.

(** C6 fails once an earlier call has left its mark.
    - A call with the mood "__proto__" and the age group "13-17" takes
      [Object.prototype] for the features and gives it an enumerable
      [tempo], NaN.  The age group "__proto__" is none of the five
      brackets; line 107 finds [Object.prototype] under that name, which is
      truthy, so [{}] is not used and the loop meets the key [tempo].  The
      record of "sad", untouched until then, goes from tempo 60 to NaN.
    - A call with "sad" and "13-17" rewrites the record of "sad"; the age
      group "90+" then hands back the rewritten record, not the profile
      the table declares. *)
Theorem unmatched_age_after_calls_differs :
  let polluted := after_calls [("__proto__", Some "13-17")] initial in
  let rewritten := after_calls [("sad", Some "13-17")] initial in
  existsb (String.eqb "__proto__") age_names = false
  /\ existsb (String.eqb "90+") age_names = false
  /\ outcome (baseFeatures "sad" polluted) = inr (VRef features_sad)
  /\ profile_of (heap polluted) (VRef features_sad) = Some (Profile 0.2 0.25 0.25 0.8 60)
  /\ resolved (resolveFeatures "sad" (Some "__proto__") polluted)
     = Some (Profile 0.2 0.25 0.25 0.8 PrimFloat.nan, VStr "indie,alternative,folk")
  /\ PrimFloat.eqb 60 PrimFloat.nan = false
  /\ profile_of initial_heap (VRef features_sad) = Some (Profile 0.2 0.25 0.25 0.8 60)
  /\ resolved (resolveFeatures "sad" (Some "90+") rewritten)
     = Some (Profile 0.2 0.28 0.3 0.8 1, VStr "indie,alternative,folk")
  /\ PrimFloat.eqb 60 1 = false.
Proof. repeat apply conj; vm_compute; reflexivity. Qed.

(** X21: after earlier calls the same holds for every age group that is not the
    name of an inherited property either: the adjustment is the [{}] of
    line 107 and the call leaves every object as it found it. *)
Lemma unlisted_age_changes_nothing
    (calls : list (string * option string)) (moodKey ageGroup : string) :
  ~ In ageGroup (age_names ++ inherited_names) ->
  exists features genres,
    baseFeatures moodKey (after_calls calls initial)
    = (inr features, after_calls calls initial)
    /\ resolveFeatures moodKey (Some ageGroup) (after_calls calls initial)
       = (inr (features, genres),
          State (heap (after_calls calls initial) ++ [literal []])
                (trace (after_calls calls initial))).
Proof.
  intros N. assert (S : shaped (after_calls calls initial)) by auto with shaped.
  change (baseFeatures moodKey) with (baseLowered (toLowerCase moodKey)).
  rewrite resolveFeatures_lowered. unfold resolveLowered.
  pose proof (toLowerCase_no_capital moodKey) as L.
  generalize dependent (toLowerCase moodKey). intros k L.
  generalize dependent (after_calls calls initial). intros [h tr] S.
  destruct (base_lookup_shaped k _ L S) as (l & _ & E1).
  rewrite (bind_run _ _ _ _ _ E1).
  rewrite (bind_run _ _ _ _ _ (adjustments_unmatched_shaped ageGroup _ S N)).
  cbn [heap trace].
  rewrite (bind_run _ _ _ _ _ (applyAdjustments_fresh (VRef l) h tr S)).
  destruct (genres_lookup_shaped k _ L (shaped_snoc h tr tr (literal []) S))
    as (genres & E4).
  rewrite (bind_run _ _ _ _ _ E4).
  exists (VRef l), genres. apply conj; [exact E1 | reflexivity].
Qed.

(** ** The tempo *)

Lemma tempo_delta_unlisted (g : string) :
  ~ In g (age_names ++ inherited_names) -> tempo_delta g = None.
Proof.
  intros Hg. unfold tempo_delta.
  erewrite get_member_absent; [reflexivity | vm_compute; reflexivity | reflexivity
    | vm_compute; reflexivity | reflexivity | absent_key | absent_key ].
Qed.

(** C10: whenever line 104 selects a profile record and the adjustment
    record of the age group has a tempo delta, the arm of line 110 takes the
    key [tempo], the resolved tempo is
    [Math.max(0, Math.min(1, base + delta))] with [base] the tempo the
    record holds when the call starts, and the arm of line 112 does not
    run.  This holds in a freshly loaded module and after any sequence of
    calls; the trace starts empty so that it shows this call alone. *)
Theorem tempo_is_clamped_to_unit_interval
    (calls : list (string * option string))
    (moodKey ageGroup : string) (features : value)
    (base : AudioFeatureProfile) (delta : float) :
  let st := State (heap (after_calls calls initial)) [] in
  baseFeatures moodKey st = (inr features, st) ->
  profile_of (heap st) features = Some base ->
  tempo_delta ageGroup = Some delta ->
  exists genres st' after,
    resolveFeatures moodKey (Some ageGroup) st = (inr (features, genres), st')
    /\ profile_of (heap st') features = Some after
    /\ tempo after = Math_max 0 (Math_min 1 (tempo base + delta))
    /\ In (OwnBranch "tempo") (trace st')
    /\ ~ In TempoBranch (trace st').
Proof.
  intros st Hbase Hprofile Hdelta.
  assert (S : shaped st).
  { destruct (after_calls_shaped calls initial initial_shaped)
      as (ph & pe & pc & ps & pt & bp & bc & fr & E).
    exists ph, pe, pc, ps, pt, bp, bc, fr. exact E. }
  change (baseFeatures moodKey) with (baseLowered (toLowerCase moodKey)) in Hbase.
  rewrite resolveFeatures_lowered.
  pose proof (toLowerCase_no_capital moodKey) as L.
  generalize dependent (toLowerCase moodKey). intros k Hbase L.
  apply (f_equal outcome) in Hbase.
  destruct (mood_key_cases k L) as [Hk|Hk];
    [ each_name Hk
    | rewrite (unlisted_mood k _ st S Hk);
      rewrite (base_unmatched_shaped k st S Hk) in Hbase ];
    subst st; generalize dependent (heap (after_calls calls initial)); intros h;
    intros Hprofile S Hbase;
    destruct S as ([v0 e0 d0 a0 t0] & [v1 e1 d1 a1 t1] & [v2 e2 d2 a2 t2]
                   & [v3 e3 d3 a3 t3] & [v4 e4 d4 a4 t4] & bp & bc & fr & S);
    cbn [heap] in S; subst h; destruct bp, bc;
    vm_compute in Hbase; injection Hbase as <-;
    vm_compute in Hprofile; try discriminate Hprofile; injection Hprofile as <-;
    (destruct (In_dec_string ageGroup (age_names ++ inherited_names)) as [Hg|Hg];
     [ each_name Hg; vm_compute in Hdelta; try discriminate Hdelta;
       injection Hdelta as <-
     | rewrite (tempo_delta_unlisted _ Hg) in Hdelta; discriminate Hdelta ]);
    eexists _, _, _; repeat apply conj;
      first [ vm_compute; reflexivity | vm_compute; intuition discriminate ].
Qed.

Lemma tempo_is_clamped_to_unit_interval_witness :
  exists genres st' after,
    resolveFeatures "energetic" (Some "50+") initial
    = (inr (VRef features_energetic, genres), st')
    /\ profile_of (heap st') (VRef features_energetic) = Some after
    /\ tempo after = Math_max 0 (Math_min 1 (130 + -15))
    /\ In (OwnBranch "tempo") (trace st')
    /\ ~ In TempoBranch (trace st').
Proof.
  apply (tempo_is_clamped_to_unit_interval [] "energetic" "50+"
           (VRef features_energetic) (Profile 0.85 0.85 0.8 0.1 130) (-15));
    vm_compute; reflexivity.
Defined.

(** ** The query parameters *)

(** C8: for the mood "constructor" the lookup of line 104 finds the
    inherited [Object] function instead of falling back; it has no
    [valence], and line 123 throws before any parameter exists. *)
Theorem constructor_mood_throws (ageGroup : option string) :
  outcome (getRecommendationsByMoodAndAge "constructor" ageGroup initial)
  = inl TypeError.
Proof.
  unfold getRecommendationsByMoodAndAge, outcome, mbind, M_bind.
  rewrite resolveFeatures_lowered. change (toLowerCase "constructor") with "constructor".
  destruct ageGroup as [g|]; [age_cases g|]; vm_compute; reflexivity.
Qed.

(** X20: for every other mood the parameters are the two-decimal renderings of
    the four bounded fields, the rounded tempo and the genres. *)
Lemma query_parameters_of_profile (moodKey : string) (ageGroup : option string) :
  ~ In (toLowerCase moodKey) inherited_lower ->
  exists p genres v e d a t,
    resolved (resolveFeatures moodKey ageGroup initial) = Some (p, VStr genres)
    /\ Number_toFixed (valence p) 2 = inr v
    /\ Number_toFixed (energy p) 2 = inr e
    /\ Number_toFixed (danceability p) 2 = inr d
    /\ Number_toFixed (acousticness p) 2 = inr a
    /\ Number_toString (Math_round (tempo p)) = inr t
    /\ outcome (getRecommendationsByMoodAndAge moodKey ageGroup initial)
       = inr [ ("seed_genres", genres); ("limit", "8");
               ("target_valence", v); ("target_energy", e);
               ("target_danceability", d); ("target_acousticness", a);
               ("target_tempo", t) ].
Proof.
  intros N. unfold getRecommendationsByMoodAndAge, outcome, mbind, M_bind.
  rewrite resolveFeatures_lowered.
  pose proof (toLowerCase_no_capital moodKey) as L.
  generalize dependent (toLowerCase moodKey). intros k N L.
  destruct (mood_key_cases k L) as [Hk|Hk];
    [ each_name Hk; try (exfalso; apply N; cbn; tauto)
    | rewrite (unlisted_mood k _ initial initial_shaped Hk) ];
    (destruct ageGroup as [g|]; [age_cases g|]);
    match goal with
    | |- context [resolved ?r] =>
      let v := eval vm_compute in (resolved r) in
      lazymatch v with Some (?p, VStr ?g) => exists p, g end
    end;
    eexists _, _, _, _, _; repeat apply conj; vm_compute; reflexivity.
Qed.

(** What [toFixed] and [Math.round] print is nearest to the number: with
    [n] the integer chosen for [num / den], [n - 1/2 <= num / den < n + 1/2]. *)
Lemma nearest_within_half (num den : Z) :
  (0 < den)%Z ->
  (2 * nearest num den * den - den <= 2 * num < 2 * nearest num den * den + den)%Z.
Proof.
  intros Hden. unfold nearest.
  pose proof (Z.div_mod (2 * num + den) (2 * den) ltac:(lia)) as E.
  pose proof (Z.mod_pos_bound (2 * num + den) (2 * den) ltac:(lia)) as B.
  nia.
Qed.
(** * The requests around the resolver: theorems *)

(** ** Encodings *)

Lemma occurrences_app (c : ascii) (a b : string) :
  occurrences c (a ++ b) = occurrences c a + occurrences c b.
Proof. induction a as [|d a IH]; cbn; [reflexivity|]. rewrite IH. lia. Qed.

Lemma hex_digit_unreserved (c : ascii) :
  is_alphanumeric (hex_digit (nat_of_ascii c / 16)) = true
  /\ is_alphanumeric (hex_digit (nat_of_ascii c mod 16)) = true.
Proof. destruct c as [[] [] [] [] [] [] [] []]; vm_compute; split; reflexivity. Qed.

Lemma eqb_alphanumeric (d c : ascii) :
  is_alphanumeric d = false -> is_alphanumeric c = true -> Ascii.eqb d c = false.
Proof.
  intros D C. destruct (Ascii.eqb_spec d c) as [->|]; [congruence|reflexivity].
Qed.

(** A character that is neither a letter nor a digit occurs in an escape
    only as its percent sign. *)
Lemma occurrences_percent (d c : ascii) :
  is_alphanumeric d = false ->
  occurrences d (percent c) = if Ascii.eqb d "%" then 1 else 0.
Proof.
  intros D. destruct (hex_digit_unreserved c) as [H1 H2]. unfold percent.
  cbn [occurrences].
  rewrite (eqb_alphanumeric _ _ D H1), (eqb_alphanumeric _ _ D H2).
  destruct (Ascii.eqb d "%"); reflexivity.
Qed.

Lemma encodeURIComponent_reserved (d : ascii) (s : string) :
  uri_unreserved d = false -> Ascii.eqb d "%" = false ->
  occurrences d (encodeURIComponent s) = 0.
Proof.
  intros D P. induction s as [|c s IH]; [reflexivity|].
  cbn [encodeURIComponent]. rewrite occurrences_app, IH.
  destruct (uri_unreserved c) eqn:U.
  - cbn.
    destruct (Ascii.eqb_spec d c) as [->|]; [congruence|reflexivity].
  - rewrite occurrences_percent, P; [reflexivity|].
    unfold uri_unreserved in D. apply orb_false_iff in D. tauto.
Qed.

Lemma hex_digit_injective (i j : nat) :
  i < 16 -> j < 16 -> hex_digit i = hex_digit j -> i = j.
Proof.
  intros I J.
  do 16 (destruct i as [|i]; [do 16 (destruct j as [|j]; [vm_compute; congruence|]); lia|]).
  lia.
Qed.

Lemma percent_injective (c d : ascii) : percent c = percent d -> c = d.
Proof.
  unfold percent. intros E.
  pose proof (nat_ascii_bounded c) as Bc. pose proof (nat_ascii_bounded d) as Bd.
  assert (E1 : hex_digit (nat_of_ascii c / 16) = hex_digit (nat_of_ascii d / 16))
    by congruence.
  assert (E2 : hex_digit (nat_of_ascii c mod 16) = hex_digit (nat_of_ascii d mod 16))
    by congruence.
  apply hex_digit_injective in E1;
    [|apply Nat.Div0.div_lt_upper_bound; lia|apply Nat.Div0.div_lt_upper_bound; lia].
  apply hex_digit_injective in E2; [|apply Nat.mod_upper_bound; lia ..].
  rewrite <- (ascii_nat_embedding c), <- (ascii_nat_embedding d). f_equal.
  pose proof (Nat.div_mod_eq (nat_of_ascii c) 16).
  pose proof (Nat.div_mod_eq (nat_of_ascii d) 16). lia.
Qed.

(** Two texts with the same encoding are the same text. *)
Lemma encodeURIComponent_injective (a b : string) :
  encodeURIComponent a = encodeURIComponent b -> a = b.
Proof.
  revert b. induction a as [|c a IH]; intros [|d b]; cbn [encodeURIComponent].
  - reflexivity.
  - unfold percent. destruct (uri_unreserved d); discriminate.
  - unfold percent. destruct (uri_unreserved c); discriminate.
  - unfold percent.
    destruct (uri_unreserved c) eqn:C, (uri_unreserved d) eqn:D;
      cbn [append]; intros E.
    + assert (c = d) as -> by congruence. f_equal. apply IH. congruence.
    + assert (c = "%"%char) as -> by congruence. vm_compute in C. discriminate.
    + assert (d = "%"%char) as -> by congruence. vm_compute in D. discriminate.
    + assert (c = d) as ->.
      { apply percent_injective. unfold percent. congruence. }
      f_equal. apply IH. congruence.
Qed.

Lemma length_append (a b : string) :
  String.length (a ++ b) = String.length a + String.length b.
Proof. induction a as [|c a IH]; cbn; [reflexivity|]. rewrite IH. reflexivity. Qed.

Lemma append_cancel_r (a b tail : string) : a ++ tail = b ++ tail -> a = b.
Proof.
  intros E.
  assert (L : String.length a = String.length b).
  { apply (f_equal String.length) in E. rewrite !length_append in E. lia. }
  revert b E L. induction a as [|c a IH]; intros [|d b] E L; try discriminate L.
  - reflexivity.
  - cbn in E. injection E as -> E. f_equal. apply IH; [exact E|]. cbn in L. lia.
Qed.

Lemma triples_ind (P : string -> Prop) :
  P "" -> (forall a, P (String a "")) -> (forall a b, P (String a (String b ""))) ->
  (forall a b c rest, P rest -> P (String a (String b (String c rest)))) ->
  forall s, P s.
Proof. intros H0 H1 H2 H3. fix IH 1. intros [|a [|b [|c rest]]]; [exact H0|apply H1|apply H2|apply H3, IH]. Qed.

Lemma base64_digit_character (n : N) : base64_character (base64_digit n) = true.
Proof.
  unfold base64_digit. generalize (N.to_nat n) as m. intros m.
  do 64 (destruct m as [|m]; [vm_compute; reflexivity|]).
  reflexivity.
Qed.

Lemma base64_characters (s : string) : every base64_character (base64 s) = true.
Proof.
  induction s as [|a|a b|a b c rest IH] using triples_ind;
    cbn [base64 every]; rewrite ?base64_digit_character, ?IH; reflexivity.
Qed.

Lemma base64_length (s : string) :
  String.length (base64 s) = 4 * ((String.length s + 2) / 3).
Proof.
  induction s as [|a|a b|a b c rest IH] using triples_ind; try reflexivity.
  cbn [base64 String.length]. rewrite IH.
  replace (S (S (S (String.length rest))) + 2) with (String.length rest + 2 + 1 * 3) by lia.
  rewrite Nat.div_add by lia. lia.
Qed.

Lemma rawCreds_length (id secret : option string) : 1 <= String.length (rawCreds id secret).
Proof. unfold rawCreds. rewrite length_append. cbn. lia. Qed.

Lemma credentials_truthy (id secret : option string) :
  truthy (VStr (base64 (rawCreds id secret))) = true.
Proof.
  pose proof (rawCreds_length id secret) as L.
  destruct (rawCreds id secret) as [|a [|b [|c rest]]]; [cbn in L; lia|reflexivity ..].
Qed.

Ltac io :=
  unfold mbind, IO_bind, mret, IO_ret, fetch, raise, attempt, json_of, try_catch, on_tables in *;
  cbn [fst snd sent memory] in *.

(** Every way a run can go, one goal each. *)
Ltac runs :=
  io;
  repeat (case_match; simplify_eq; cbn [fst snd sent memory negb] in *);
  repeat match goal with
         | H : negb _ = false |- _ => apply negb_false_iff in H
         | H : negb _ = true |- _ => apply negb_true_iff in H
         | H : json_truthy ?o = true |- _ =>
           is_var o; destruct o; [|discriminate H]
         end.

Lemma io_bind_run {A B} (m : IO A) (f : A -> IO B) (net : network) (w w' : world) (a : A) :
  m net w = (inr a, w') -> (m ≫= f) net w = f a net w'.
Proof. intros E. unfold mbind, IO_bind. rewrite E. reflexivity. Qed.

Lemma io_bind_fail {A B} (m : IO A) (f : A -> IO B) (net : network) (w w' : world)
    (e : failure) :
  m net w = (inl e, w') -> (m ≫= f) net w = (inl e, w').
Proof. intros E. unfold mbind, IO_bind. rewrite E. reflexivity. Qed.

(** Where [getSpotifyToken] leaves the world. *)
Lemma getSpotifyToken_world (id secret : option string) (net : network) (w : world) :
  snd (getSpotifyToken id secret net w)
  = World (memory w) (sent w ++ [token_request (base64 (rawCreds id secret))]).
Proof.
  unfold getSpotifyToken. rewrite credentials_truthy. cbn [negb].
  generalize (base64 (rawCreds id secret)) as c. intros c.
  runs; reflexivity.
Qed.

(** A document that is not [null] answers every name the program asks
    for. *)
Lemma read_defined (v : json) (key : string) :
  v <> JNull -> existsb (String.eqb key) document_names = true ->
  exists o, read (Some v) key = inr o.
Proof.
  intros N K. unfold read. rewrite K.
  destruct v; try congruence; eauto. destruct (lookup_field fields key); eauto.
Qed.

Lemma truthy_not_null (v : json) : json_truthy (Some v) = true -> v <> JNull.
Proof. intros T ->. discriminate T. Qed.

(** X1.  [getSpotifyToken] sends exactly one request whatever the network
    answers, and leaves the tables alone.  The credentials of its
    Authorization header are four characters for every three bytes of
    [id:secret], all of them letters, digits, [+], [/] or [=]; they are
    never empty, so the error of line 57 cannot occur. *)
Theorem getSpotifyToken_request (id secret : option string) (net : network) (w : world) :
  let credentials := base64 (rawCreds id secret) in
  let w' := snd (getSpotifyToken id secret net w) in
  sent w' = (sent w ++ [token_request credentials])%list
  /\ memory w' = memory w
  /\ every base64_character credentials = true
  /\ String.length credentials = 4 * ((String.length (rawCreds id secret) + 2) / 3)
  /\ fst (getSpotifyToken id secret net w)
     <> inl (Raised "Unable to encode Spotify credentials in this environment.").
Proof.
  cbn zeta. rewrite getSpotifyToken_world. cbn [sent memory].
  repeat apply conj; auto using base64_characters, base64_length.
  unfold getSpotifyToken. rewrite credentials_truthy. cbn [negb].
  runs; discriminate.
Qed.

(** ** spotify.js: the search *)

Ltac count_reserved :=
  rewrite ?occurrences_app, ?encodeURIComponent_reserved by (vm_compute; reflexivity);
  reflexivity.

(** X2.  Whatever text is searched for, the address of line 81 has one
    question mark, the two ampersands and the three equals signs of the
    template, no number sign and no space: the text cannot end the query,
    add a parameter to it or overwrite [type] and [limit]. *)
Theorem search_url_parameters (mood : string) :
  occurrences "?" (search_url mood) = 1
  /\ occurrences "&" (search_url mood) = 2
  /\ occurrences "=" (search_url mood) = 3
  /\ occurrences "#" (search_url mood) = 0
  /\ occurrences " " (search_url mood) = 0.
Proof. unfold search_url. repeat apply conj; count_reserved. Qed.

(** X3.  Two searches with the same address search for the same text. *)
Theorem search_url_injective (a b : string) :
  search_url a = search_url b -> a = b.
Proof.
  unfold search_url. intros E. apply encodeURIComponent_injective.
  apply (append_cancel_r _ _ "&type=track&limit=5").
  cbn [append] in E. congruence.
Qed.

Lemma search_url_injective_witness :
  search_url "sad%20song" = search_url "sad%20song" /\ "sad%20song" = "sad%20song".
Proof.
  split; [reflexivity|]. apply (search_url_injective "sad%20song" "sad%20song"). reflexivity.
Defined.




Lemma string_nonempty_truthy (s : string) : s <> "" -> truthy (VStr s) = true.
Proof. intros N. cbn. apply negb_true_iff, String.eqb_neq, N. Qed.

(** Line 95 on any document. *)
Lemma tracks_items_total (data : json) (net : network) (w : world) :
  exists found,
    tracks_items data net w = (inr found, w)
    /\ (found = JArr []
        \/ exists tracks,
             read (Some data) "tracks" = inr (Some tracks)
             /\ read (Some tracks) "items" = inr (Some found)
             /\ json_truthy (Some found) = true)
    /\ (forall tracks items,
          json_truthy (Some data) = true ->
          read (Some data) "tracks" = inr (Some tracks) ->
          json_truthy (Some tracks) = true ->
          read (Some tracks) "items" = inr (Some items) ->
          json_truthy (Some items) = true ->
          found = items).
Proof.
  unfold tracks_items.
  destruct (json_truthy (Some data)) eqn:D;
    [|eexists; repeat apply conj; [reflexivity|left; reflexivity|discriminate]].
  destruct (read_defined data "tracks" (truthy_not_null _ D) eq_refl) as [tracks T].
  io. rewrite T.
  destruct (json_truthy tracks) eqn:Tt.
  2: { eexists; repeat apply conj; [reflexivity|left; reflexivity|].
       intros ? ? _ [= ->] Tt'. congruence. }
  destruct tracks as [tracks|]; [|discriminate Tt].
  destruct (read_defined tracks "items" (truthy_not_null _ Tt) eq_refl) as [items I].
  rewrite I. unfold or_empty.
  destruct items as [items|].
  - destruct (json_truthy (Some items)) eqn:It.
    + eexists; repeat apply conj; [reflexivity|right; eauto|].
      intros ? ? _ [= <-] _. rewrite I. congruence.
    + eexists; repeat apply conj; [reflexivity|left; reflexivity|].
      intros ? ? _ [= <-] _. rewrite I. intros [= <-]. congruence.
  - eexists; repeat apply conj; [reflexivity|left; reflexivity|].
    intros ? ? _ [= <-] _. rewrite I. discriminate.
Qed.

(** X5.  With a token that is a non-empty string and a search answered
    with a 2xx status, [searchSongsByMood] returns a value whatever JSON
    document the answer holds: [data.tracks.items] when [data],
    [data.tracks] and [data.tracks.items] are all truthy, the empty array
    otherwise.  A missing or [null] field raises no exception. *)
Theorem searchSongsByMood_any_document (id secret : option string) (mood token : string)
    (net : network) (w : world) (r : response) (data : json) :
  fst (getSpotifyToken id secret net w) = inr (Some (JStr token)) ->
  token <> "" ->
  net (sent w ++ [token_request (base64 (rawCreds id secret))])%list
      (bearer_request (search_url mood) token) = Answered r ->
  ok r = true ->
  parsed r = Some data ->
  exists found,
    fst (searchSongsByMood id secret mood net w) = inr found
    /\ (found = JArr []
        \/ exists tracks,
             read (Some data) "tracks" = inr (Some tracks)
             /\ read (Some tracks) "items" = inr (Some found)
             /\ json_truthy (Some found) = true)
    /\ (forall tracks items,
          json_truthy (Some data) = true ->
          read (Some data) "tracks" = inr (Some tracks) ->
          json_truthy (Some tracks) = true ->
          read (Some tracks) "items" = inr (Some items) ->
          json_truthy (Some items) = true ->
          found = items).
Proof.
  intros G N R K P.
  pose proof (getSpotifyToken_world id secret net w) as W.
  destruct (getSpotifyToken id secret net w) as [granted w1] eqn:E.
  cbn [fst snd] in G, W. subst granted w1.
  unfold searchSongsByMood. rewrite (io_bind_run _ _ _ _ _ _ E).
  cbn [json_truthy]. rewrite (string_nonempty_truthy _ N). cbn [negb to_text].
  io. rewrite R, K, P. cbn [negb].
  destruct (tracks_items_total data net
              (World (memory w)
                 ((sent w ++ [token_request (base64 (rawCreds id secret))]) ++
                  [bearer_request (search_url mood) token])))
    as (found & F & rest).
  exists found. unfold mbind, IO_bind, mret, IO_ret, attempt in F. rewrite F. auto.
Qed.

Lemma searchSongsByMood_any_document_witness :
  let net := scripted [ answer_with "access_token" "t0k3n"; answer_with "tracks" "none" ] in
  exists found,
    fst (searchSongsByMood (Some "id") (Some "secret") "sad" net (no_requests initial))
    = inr found.
Proof.
  cbn zeta.
  destruct (searchSongsByMood_any_document (Some "id") (Some "secret") "sad" "t0k3n"
              (scripted [ answer_with "access_token" "t0k3n"; answer_with "tracks" "none" ])
              (no_requests initial)
              (Response 200 "OK" ("{" ++ quoted "tracks" ++ ":" ++ quoted "none" ++ "}")
                 (Some (JObj [("tracks", JStr "none")])))
              (JObj [("tracks", JStr "none")]))
    as (found & F & _).
  - vm_compute. reflexivity.
  - discriminate.
  - vm_compute. reflexivity.
  - vm_compute. reflexivity.
  - reflexivity.
  - exists found. exact F.
Defined.

(** ** spotify.js: the recommendation request *)

Section Reads.

Context {A B : Type}.

Lemma bind_reads (m : M A) (f : A -> M B) :
  (forall s, snd (m s) = s) -> (forall a s, snd (f a s) = s) ->
  forall s, snd ((m ≫= f) s) = s.
Proof.
  intros Hm Hf s. unfold mbind, M_bind. specialize (Hm s).
  destruct (m s) as [[e|a] s1]; cbn in Hm; subst s1; [reflexivity|apply Hf].
Qed.

End Reads.

Lemma get_member_reads (base : value) (key : string) (s : state) :
  snd (get_member base key s) = s.
Proof.
  destruct (get_member base key s) as [r s'] eqn:E.
  apply get_member_state in E. exact E.
Qed.

Lemma toFixed_reads (v : value) (f : nat) (s : state) : snd (toFixed v f s) = s.
Proof.
  destruct v; try reflexivity. cbn. unfold mbind, M_bind, lift.
  destruct (Number_toFixed x f); reflexivity.
Qed.

Lemma math_round_reads (v : value) (s : state) : snd (math_round v s) = s.
Proof. destruct v; reflexivity. Qed.

Lemma to_string_reads (v : value) (s : state) : snd (to_string v s) = s.
Proof. destruct v; reflexivity. Qed.

Lemma URLSearchParams_reads (record : list (string * value)) (s : state) :
  snd (URLSearchParams record s) = s.
Proof.
  revert s. induction record as [|[name v] rest IH]; intros s; [reflexivity|].
  cbn [URLSearchParams]. apply bind_reads; [apply to_string_reads|].
  intros a s'. apply bind_reads; [apply IH|reflexivity].
Qed.

(** Lines 120-128 read the record and write nothing. *)
Lemma buildParams_reads (features genres : value) (s : state) :
  snd (buildParams features genres s) = s.
Proof.
  unfold buildParams.
  repeat (apply bind_reads;
          [first [apply get_member_reads | apply toFixed_reads | apply math_round_reads]
          |intros ? ?]).
  apply URLSearchParams_reads.
Qed.

Lemma getRecommendationsByMoodAndAge_final (moodKey : string) (ageGroup : option string)
    (st : state) :
  final (getRecommendationsByMoodAndAge moodKey ageGroup st)
  = final (resolveFeatures moodKey ageGroup st).
Proof.
  unfold getRecommendationsByMoodAndAge, final, mbind, M_bind.
  destruct (resolveFeatures moodKey ageGroup st) as [[e|[features genres]] s1];
    [reflexivity|]. apply buildParams_reads.
Qed.

(** X6.  When [getSpotifyToken] hands back no token, or a falsy one,
    [getRecommendationsByMoodAndAge] fails before line 104: the tables are
    as they were and the token request is the only request sent. *)
Theorem recommend_without_token (id secret : option string)
    (moodKey ageGroup : option json) (net : network) (w : world) :
  (forall token,
     fst (getSpotifyToken id secret net w) = inr token -> json_truthy token = false) ->
  let run := recommend id secret moodKey ageGroup net w in
  (exists f, fst run = inl f)
  /\ memory (snd run) = memory w
  /\ sent (snd run) = (sent w ++ [token_request (base64 (rawCreds id secret))])%list.
Proof.
  intros G. cbn zeta.
  pose proof (getSpotifyToken_world id secret net w) as W.
  unfold recommend.
  destruct (getSpotifyToken id secret net w) as [[f|token] w1] eqn:E;
    cbn [fst snd] in G, W; subst w1.
  - rewrite (io_bind_fail _ _ _ _ _ _ E). cbn. eauto.
  - rewrite (io_bind_run _ _ _ _ _ _ E), (G token eq_refl). cbn. eauto.
Qed.

Lemma recommend_without_token_witness :
  let net := scripted [ answer_with "error" "invalid_client" ] in
  let run := recommend (Some "id") (Some "secret") (Some (JStr "sad")) (Some (JStr "13-17"))
               net (no_requests initial) in
  fst run = inl (Raised "No Spotify access token available.")
  /\ memory (snd run) = initial.
Proof.
  cbn zeta. split; [vm_compute; reflexivity|].
  apply (recommend_without_token (Some "id") (Some "secret") (Some (JStr "sad"))
           (Some (JStr "13-17")) (scripted [ answer_with "error" "invalid_client" ])
           (no_requests initial)).
  vm_compute. intros token [= <-]. reflexivity.
Defined.

(** X7.  Once a token is granted, a call with a mood that is a string
    rewrites the tables as lines 104-117 do before the recommendation
    request is sent, and nothing that happens to the request undoes it:
    the tables after the call are the same whether the request succeeds,
    is answered with an error status or cannot be sent. *)
Theorem recommend_rewrites_tables (id secret : option string) (mood : string)
    (ageGroup : option string) (net : network) (w : world) (token : option json) :
  fst (getSpotifyToken id secret net w) = inr token ->
  json_truthy token = true ->
  memory (snd (recommend id secret (Some (JStr mood)) (option_map JStr ageGroup) net w))
  = final (resolveFeatures mood ageGroup (memory w)).
Proof.
  intros G T.
  pose proof (getSpotifyToken_world id secret net w) as W.
  unfold recommend.
  destruct (getSpotifyToken id secret net w) as [granted w1] eqn:E.
  cbn [fst snd] in G, W. subst granted w1.
  rewrite (io_bind_run _ _ _ _ _ _ E), T. cbn [negb].
  rewrite <- getRecommendationsByMoodAndAge_final.
  assert (K : age_key (option_map JStr ageGroup) = inr ageGroup)
    by (destruct ageGroup; reflexivity).
  rewrite K. unfold tracks_of, final.
  destruct (getRecommendationsByMoodAndAge mood ageGroup (memory w)) as [[e|params] st] eqn:R;
    runs; try rewrite R in *; simplify_eq; reflexivity.
Qed.

Lemma recommend_rewrites_tables_witness :
  let net := scripted [ answer_with "access_token" "t0k3n" ] in
  let run := recommend (Some "id") (Some "secret") (Some (JStr "sad")) (Some (JStr "13-17"))
               net (no_requests initial) in
  fst run = inl Unreachable
  /\ memory (snd run) = final (resolveFeatures "sad" (Some "13-17") initial).
Proof.
  cbn zeta. split; [vm_compute; reflexivity|].
  apply (recommend_rewrites_tables (Some "id") (Some "secret") "sad" (Some "13-17")
           (scripted [ answer_with "access_token" "t0k3n" ]) (no_requests initial)
           (Some (JStr "t0k3n"))).
  - vm_compute. reflexivity.
  - reflexivity.
Defined.

(** The two calls of the next theorem, for a mood and an age group that
    are known. *)
Ltac two_calls :=
  match goal with
  | |- context [resolveLowered ?k (Some ?g)] =>
    let r1 := eval vm_compute in (getRecommendationsByMoodAndAge k (Some g) initial) in
    lazymatch r1 with
    | (inr ?p1, ?s1) =>
      let r2 := eval vm_compute in (getRecommendationsByMoodAndAge k (Some g) s1) in
      lazymatch r2 with
      | (inr ?p2, ?s2) =>
        exists p1, p2, s1, s2; repeat apply conj;
        [ vm_compute; reflexivity | vm_compute; reflexivity | vm_compute; discriminate ]
      end
    end
  end.

Ltac two_unlisted_calls k Hk :=
  match goal with
  | |- context [resolveLowered k (Some ?g)] =>
    let r1 := eval vm_compute in (getRecommendationsByMoodAndAge unlisted (Some g) initial) in
    lazymatch r1 with
    | (inr ?p1, ?s1) =>
      let r2 := eval vm_compute in (getRecommendationsByMoodAndAge unlisted (Some g) s1) in
      lazymatch r2 with
      | (inr ?p2, ?s2) =>
        let S1 := fresh "S1" in
        assert (S1 : shaped s1);
        [ let E := fresh "E" in
          destruct (resolveLowered_shaped unlisted (Some g) initial eq_refl initial_shaped)
            as (? & ? & ? & E & S1);
          vm_compute in E; injection E as <- <- <-; exact S1
        | exists p1, p2, s1, s2; repeat apply conj;
          [ rewrite (bind_cong_l _ _ _ _ (unlisted_mood k _ initial initial_shaped Hk));
            vm_compute; reflexivity
          | rewrite (bind_cong_l _ _ _ _ (unlisted_mood k _ s1 S1 Hk));
            vm_compute; reflexivity
          | vm_compute; discriminate ] ]
      end
    end
  end.

(** X8.  In a freshly loaded module, for every mood other than the two
    inherited names and for each of the five age groups, a second call
    with the same arguments asks for other parameters than the first: the
    addresses of line 130 differ. *)
Theorem second_request_differs (moodKey ageGroup : string) :
  ~ In (toLowerCase moodKey) inherited_lower ->
  In ageGroup age_names ->
  exists first second st1 st2,
    getRecommendationsByMoodAndAge moodKey (Some ageGroup) initial = (inr first, st1)
    /\ getRecommendationsByMoodAndAge moodKey (Some ageGroup) st1 = (inr second, st2)
    /\ recommendations_url first <> recommendations_url second.
Proof.
  intros Hm Ha. unfold getRecommendationsByMoodAndAge. rewrite resolveFeatures_lowered.
  pose proof (toLowerCase_no_capital moodKey) as L. revert Hm L.
  generalize (toLowerCase moodKey) as k. intros k Hm L.
  destruct (mood_key_cases k L) as [Hk|Hk].
  - each_name Hk; try (exfalso; apply Hm; vm_compute; tauto); each_name Ha; two_calls.
  - each_name Ha; two_unlisted_calls k Hk.
Qed.

Lemma second_request_differs_witness :
  exists first second st1 st2,
    getRecommendationsByMoodAndAge "Calm" (Some "50+") initial = (inr first, st1)
    /\ getRecommendationsByMoodAndAge "Calm" (Some "50+") st1 = (inr second, st2)
    /\ recommendations_url first <> recommendations_url second.
Proof.
  apply (second_request_differs "Calm" "50+").
  - vm_compute. intuition discriminate.
  - vm_compute. tauto.
Defined.

Lemma form_encode_reserved (d : ascii) (s : string) :
  form_unreserved d = false -> Ascii.eqb d "%" = false -> Ascii.eqb d "+" = false ->
  occurrences d (form_encode s) = 0.
Proof.
  intros D P Q. induction s as [|c s IH]; [reflexivity|].
  cbn [form_encode]. rewrite occurrences_app, IH.
  destruct (form_unreserved c) eqn:U.
  - cbn. destruct (Ascii.eqb_spec d c) as [->|]; [congruence|reflexivity].
  - destruct (Ascii.eqb c " ").
    + cbn. rewrite Q. reflexivity.
    + rewrite occurrences_percent, P; [reflexivity|].
      unfold form_unreserved in D. apply orb_false_iff in D. tauto.
Qed.

Lemma form_urlencoded_counts (d : ascii) (params : list (string * string)) :
  form_unreserved d = false -> Ascii.eqb d "%" = false -> Ascii.eqb d "+" = false ->
  occurrences d (form_urlencoded params)
  = (if Ascii.eqb d "=" then length params else 0)
    + (if Ascii.eqb d "&" then length params - 1 else 0).
Proof.
  intros D P Q. induction params as [|[name v] rest IH]; [cbn; destruct (Ascii.eqb d "=")%char, (Ascii.eqb d "&")%char; reflexivity|].
  cbn [form_urlencoded length].
  rewrite !occurrences_app, !form_encode_reserved by assumption.
  destruct rest as [|next rest].
  - cbn. destruct (Ascii.eqb d "="), (Ascii.eqb d "&"); reflexivity.
  - rewrite occurrences_app, IH. cbn [occurrences length].
    destruct (Ascii.eqb d "="), (Ascii.eqb d "&"); lia.
Qed.

(** X9.  The address of line 130 has one question mark, one equals sign
    for each parameter and one ampersand between two parameters, and no
    number sign, whatever the names and the values are: a value cannot add
    a parameter or cut the query short. *)
Theorem recommendations_url_parameters (params : list (string * string)) :
  occurrences "?" (recommendations_url params) = 1
  /\ occurrences "=" (recommendations_url params) = length params
  /\ occurrences "&" (recommendations_url params) = length params - 1
  /\ occurrences "#" (recommendations_url params) = 0.
Proof.
  unfold recommendations_url.
  repeat apply conj; rewrite occurrences_app, form_urlencoded_counts by reflexivity;
    cbn; lia.
Qed.

(** ** server.js: the log routes *)

Lemma lookup_assign (fields : list (string * json)) (key k : string) (v : json) :
  lookup_field (assign fields key v) k
  = if String.eqb k key then Some v else lookup_field fields k.
Proof.
  induction fields as [|[k' old] rest IH]; cbn.
  - destruct (String.eqb k key); reflexivity.
  - destruct (String.eqb_spec key k') as [->|N]; cbn.
    + destruct (String.eqb k k'); reflexivity.
    + rewrite IH. destruct (String.eqb_spec k k') as [->|N'].
      * destruct (String.eqb_spec k' key) as [->|]; [congruence|reflexivity].
      * reflexivity.
Qed.

Lemma keys_assign (fields : list (string * json)) (key k : string) (v : json) :
  In k (map fst (assign fields key v)) -> k = key \/ In k (map fst fields).
Proof.
  induction fields as [|[k' old] rest IH]; cbn.
  - intros [<-|[]]. left. reflexivity.
  - destruct (String.eqb_spec key k') as [->|N]; cbn; intros [<-|I]; auto.
    destruct (IH I); auto.
Qed.

(** The loop of line 141 copies and never invents: a key of the result was
    in the payload before or is one of the keys looped over, and a value
    of the result was in the payload before or is the body's value for
    that key. *)
Lemma copy_fields_spec (body : option json) (keys : list string) :
  forall payload result,
    Server.copy_fields body keys payload = inr result ->
    (forall k, In k (map fst result) -> In k (map fst payload) \/ In k keys)
    /\ (forall k v, lookup_field result k = Some v ->
          lookup_field payload k = Some v \/ (In k keys /\ read body k = inr (Some v))).
Proof.
  induction keys as [|key keys IH]; intros payload result; cbn [Server.copy_fields].
  - intros [= <-]. split; auto.
  - destruct (read body key) as [e|[v|]] eqn:R; [discriminate| |]; intros C;
      destruct (IH _ _ C) as [K V]; split.
    + intros k I. destruct (K k I) as [I'|I']; [|right; right; exact I'].
      apply keys_assign in I'. destruct I' as [->|I']; [right; left; reflexivity|auto].
    + intros k x L. destruct (V k x L) as [L'|[I' R']]; [|right; split; [right|]; auto].
      rewrite lookup_assign in L'. destruct (String.eqb_spec k key) as [->|];
        [|left; exact L']. injection L' as <-. right. split; [left; reflexivity|exact R].
    + intros k I. destruct (K k I) as [I'|I']; auto. right. right. exact I'.
    + intros k x L. destruct (V k x L) as [L'|[I' R']]; auto. right. split; [right|]; auto.
Qed.

Lemma copy_fields_total (body : json) (keys : list string) :
  body <> JNull -> incl keys document_names ->
  forall payload, exists result, Server.copy_fields (Some body) keys payload = inr result.
Proof.
  intros N. induction keys as [|key keys IH]; intros I payload; cbn [Server.copy_fields].
  - eauto.
  - destruct (read_defined body key N) as [[v|] R].
    + apply existsb_exists. exists key. split; [apply I; left; reflexivity|apply String.eqb_refl].
    + rewrite R. apply IH. intros k Hk. apply I. right. exact Hk.
    + rewrite R. apply IH. intros k Hk. apply I. right. exact Hk.
Qed.

Lemma allowed_documented : incl Server.allowed document_names.
Proof. intros k I. cbn in I |- *. intuition. Qed.

(** The loop fails only on a body that has no properties to read. *)
Lemma copy_fields_error (body : option json) (payload : list (string * json)) (e : error) :
  Server.copy_fields body Server.allowed payload = inl e -> e = TypeError.
Proof.
  destruct body as [b|]; [|cbn; congruence].
  destruct b; try (cbn; congruence).
  all: match goal with
       | |- Server.copy_fields (Some ?b) _ _ = _ -> _ =>
         destruct (copy_fields_total b Server.allowed ltac:(discriminate)
                     allowed_documented payload) as [result ->]; discriminate
       end.
Qed.

(** X10.  Every request [POST /api/log] sends is the insert of one row whose
    fields are among the seven allowed names.  Each field holds what the
    request body holds under that name, or is the [user_id] "guest"; the
    row has a truthy [user_id] and a truthy [mood].  Whatever else the body
    carries is dropped. *)
Theorem log_stores_allowed_fields (key : option string) (body : option json)
    (net : network) (w : world) (req : request) :
  In req (sent (snd (Server.log key body net w))) ->
  In req (sent w)
  \/ exists row,
       req = Server.supabase_request key "POST" Server.insertUrl (Some (Json (JObj row)))
       /\ incl (map fst row) Server.allowed
       /\ (forall k v, lookup_field row k = Some v ->
             read body k = inr (Some v) \/ (k = "user_id" /\ v = JStr "guest"))
       /\ json_truthy (lookup_field row "user_id") = true
       /\ json_truthy (lookup_field row "mood") = true.
Proof.
  unfold Server.log. io.
  destruct (Server.not_configured key); [cbn; auto|].
  destruct (Server.copy_fields body Server.allowed []) as [e|payload] eqn:C.
  { destruct e; cbn; auto. }
  destruct (copy_fields_spec _ _ _ _ C) as [K V].
  assert (U : read (Some (JObj payload)) "user_id" = inr (lookup_field payload "user_id")).
  { cbn. destruct (lookup_field payload "user_id"); reflexivity. }
  rewrite U.
  set (row := if json_truthy (lookup_field payload "user_id") then payload
              else assign payload "user_id" (JStr "guest")).
  assert (M : read (Some (JObj row)) "mood" = inr (lookup_field row "mood")).
  { cbn. destruct (lookup_field row "mood"); reflexivity. }
  rewrite M.
  destruct (json_truthy (lookup_field row "mood")) eqn:T; cbn [negb]; [|cbn; auto].
  assert (R : forall tail : list request,
            In req (sent w ++ tail) -> tail = [Server.supabase_request key "POST"
              Server.insertUrl (Some (Json (JObj row)))] ->
            In req (sent w) \/ exists row0,
              req = Server.supabase_request key "POST" Server.insertUrl (Some (Json (JObj row0)))
              /\ incl (map fst row0) Server.allowed
              /\ (forall k v, lookup_field row0 k = Some v ->
                    read body k = inr (Some v) \/ (k = "user_id" /\ v = JStr "guest"))
              /\ json_truthy (lookup_field row0 "user_id") = true
              /\ json_truthy (lookup_field row0 "mood") = true).
  { intros tail I ->. apply in_app_or in I. destruct I as [I|[<-|[]]]; [left; exact I|].
    right. exists row. repeat apply conj; auto.
    - intros k I. subst row.
      destruct (json_truthy (lookup_field payload "user_id")).
      + destruct (K k I) as [[]|I']. exact I'.
      + apply keys_assign in I. destruct I as [->|I]; [left; reflexivity|].
        destruct (K k I) as [[]|I']. exact I'.
    - intros k v L. subst row.
      destruct (json_truthy (lookup_field payload "user_id")).
      + destruct (V k v L) as [L'|[_ R']]; [discriminate L'|left; exact R'].
      + rewrite lookup_assign in L. destruct (String.eqb_spec k "user_id") as [->|].
        * injection L as <-. right. split; reflexivity.
        * destruct (V k v L) as [L'|[_ R']]; [discriminate L'|left; exact R'].
    - subst row. destruct (json_truthy (lookup_field payload "user_id")) eqn:G; [exact G|].
      rewrite lookup_assign. reflexivity. }
  destruct (net (sent w) _) as [r|]; [destruct (negb (ok r))|]; cbn [fst snd sent];
    intros I; apply (R _ I); reflexivity.
Qed.

Lemma log_stores_allowed_fields_witness :
  let body := JObj [ ("mood", JStr "sad"); ("is_admin", JBool true); ("user_id", JStr "") ] in
  let row := [ ("user_id", JStr "guest"); ("mood", JStr "sad") ] in
  let req := Server.supabase_request (Some "key") "POST" Server.insertUrl
               (Some (Json (JObj row))) in
  sent (snd (Server.log (Some "key") (Some body) (scripted []) (no_requests initial))) = [req]
  /\ exists stored,
       req = Server.supabase_request (Some "key") "POST" Server.insertUrl
               (Some (Json (JObj stored)))
       /\ incl (map fst stored) Server.allowed.
Proof.
  cbn zeta. split; [vm_compute; reflexivity|].
  destruct (log_stores_allowed_fields (Some "key")
              (Some (JObj [ ("mood", JStr "sad"); ("is_admin", JBool true);
                            ("user_id", JStr "") ]))
              (scripted []) (no_requests initial)
              (Server.supabase_request (Some "key") "POST" Server.insertUrl
                 (Some (Json (JObj [ ("user_id", JStr "guest"); ("mood", JStr "sad") ])))))
    as [[]|(stored & E & I & _)].
  - vm_compute. left. reflexivity.
  - exists stored. split; assumption.
Defined.

(** X11.  [POST /api/log] stores nothing without a mood: when the body has
    no [mood], or a falsy one, or is no object at all, the route answers
    400 or 500 and sends no request. *)
Theorem log_requires_mood (key : option string) (body : option json)
    (net : network) (w : world) :
  (forall mood, read body "mood" = inr mood -> json_truthy mood = false) ->
  snd (Server.log key body net w) = w
  /\ exists a, fst (Server.log key body net w) = inr a /\ (code a = 400 \/ code a = 500).
Proof.
  intros F. unfold Server.log. io.
  destruct (Server.not_configured key); [cbn; eauto|].
  destruct (Server.copy_fields body Server.allowed []) as [e|payload] eqn:C.
  { apply copy_fields_error in C. subst e. cbn. eauto. }
  destruct (copy_fields_spec _ _ _ _ C) as [K V].
  assert (U : read (Some (JObj payload)) "user_id" = inr (lookup_field payload "user_id")).
  { cbn. destruct (lookup_field payload "user_id"); reflexivity. }
  rewrite U.
  set (row := if json_truthy (lookup_field payload "user_id") then payload
              else assign payload "user_id" (JStr "guest")).
  assert (M : read (Some (JObj row)) "mood" = inr (lookup_field row "mood")).
  { cbn. destruct (lookup_field row "mood"); reflexivity. }
  rewrite M.
  assert (T : json_truthy (lookup_field row "mood") = false).
  { assert (L : lookup_field row "mood" = lookup_field payload "mood").
    { subst row. destruct (json_truthy (lookup_field payload "user_id")); [reflexivity|].
      rewrite lookup_assign. reflexivity. }
    rewrite L. destruct (lookup_field payload "mood") as [v|] eqn:E; [|reflexivity].
    destruct (V _ _ E) as [L'|[_ R]]; [discriminate L'|]. apply F, R. }
  rewrite T. cbn. eauto.
Qed.

Lemma log_requires_mood_witness :
  Server.log (Some "key") (Some (JObj [ ("user_id", JStr "ann"); ("mood", JStr "") ]))
    (scripted []) (no_requests initial)
  = (inr (Answer 400 (Message "Missing mood in payload")), no_requests initial)
  /\ snd (Server.log (Some "key") (Some (JObj [ ("user_id", JStr "ann"); ("mood", JStr "") ]))
            (scripted []) (no_requests initial))
     = no_requests initial.
Proof.
  split; [vm_compute; reflexivity|].
  apply (log_requires_mood (Some "key")
           (Some (JObj [ ("user_id", JStr "ann"); ("mood", JStr "") ]))
           (scripted []) (no_requests initial)).
  intros mood [= <-]. reflexivity.
Defined.

(** X12.  Whatever the id, the address [PATCH /api/log/:id] sends to has
    one question mark, one equals sign, no ampersand and no number sign:
    the id cannot add a filter to the update or cut the address short. *)
Theorem updateUrl_has_one_filter (id : string) :
  occurrences "?" (Server.updateUrl id) = 1
  /\ occurrences "=" (Server.updateUrl id) = 1
  /\ occurrences "&" (Server.updateUrl id) = 0
  /\ occurrences "#" (Server.updateUrl id) = 0.
Proof. unfold Server.updateUrl. repeat apply conj; count_reserved. Qed.

(** ** A result means two answered requests *)

(** X13.  [getRecommendationsByMoodAndAge] returns a value only when the
    token request and the recommendation request were both answered with a
    2xx status; these two are then the only requests sent, in this order,
    and the second one carries the address of line 130 and the token. *)
Theorem recommend_returns_after_two_answers (id secret : option string)
    (moodKey ageGroup : option json) (net : network) (w : world) (found : json) :
  fst (recommend id secret moodKey ageGroup net w) = inr found ->
  let token_step := token_request (base64 (rawCreds id secret)) in
  exists r1 params bearer r2,
    net (sent w) token_step = Answered r1
    /\ ok r1 = true
    /\ net (sent w ++ [token_step])%list
           (bearer_request (recommendations_url params) bearer) = Answered r2
    /\ ok r2 = true
    /\ sent (snd (recommend id secret moodKey ageGroup net w))
       = (sent w ++ [token_step; bearer_request (recommendations_url params) bearer])%list.
Proof.
  cbn zeta. unfold recommend, getSpotifyToken, tracks_of.
  rewrite credentials_truthy. cbn [negb].
  generalize (base64 (rawCreds id secret)) as c. intros c.
  runs; intros; simplify_eq;
    do 4 eexists; repeat apply conj; eauto; rewrite <- app_assoc; reflexivity.
Qed.

Lemma recommend_returns_after_two_answers_witness :
  let net := scripted [ answer_with "access_token" "t0k3n"; answer_with "tracks" "none" ] in
  fst (recommend (Some "id") (Some "secret") (Some (JStr "sad")) None net
         (no_requests initial)) = inr (JStr "none")
  /\ exists r1 r2, net [] (token_request (base64 (rawCreds (Some "id") (Some "secret"))))
                   = Answered r1 /\ ok r1 = true /\ ok r2 = true.
Proof.
  cbn zeta. split; [vm_compute; reflexivity|].
  destruct (recommend_returns_after_two_answers (Some "id") (Some "secret")
              (Some (JStr "sad")) None
              (scripted [ answer_with "access_token" "t0k3n"; answer_with "tracks" "none" ])
              (no_requests initial) (JStr "none"))
    as (r1 & params & bearer & r2 & N1 & K1 & _ & K2 & _).
  - vm_compute. reflexivity.
  - exists r1, r2. repeat apply conj; assumption.
Defined.

(** ** server.js: the routes that ask Spotify *)



(** X15.  [GET /api/search] does not check the token: when the token
    request is answered with a document that has no [access_token], the
    route still sends the search, with the header [Bearer undefined].
    ([searchSongsByMood] of [spotify.js] stops with an error there.) *)
Theorem search_sends_without_token (id secret : option string) (q : string)
    (net : network) (w : world) (r : response) (data : json) :
  q <> "" ->
  net (sent w) (token_request (base64 (rawCreds id secret))) = Answered r ->
  ok r = true ->
  parsed r = Some data ->
  read (Some data) "access_token" = inr None ->
  sent (snd (Server.search id secret (Some (JStr q)) net w))
  = (sent w ++ [ token_request (base64 (rawCreds id secret));
                 bearer_request (Server.search_url q) "undefined" ])%list
  /\ sent (snd (searchSongsByMood id secret q net w))
     = (sent w ++ [ token_request (base64 (rawCreds id secret)) ])%list.
Proof.
  intros N R K P A. split.
  - unfold Server.search, Server.getSpotifyToken, Server.tracks_items.
    cbn [json_truthy]. rewrite (string_nonempty_truthy _ N). cbn [negb].
    generalize dependent (base64 (rawCreds id secret)). intros c R.
    io. rewrite R, K, P, A. cbn [negb to_text].
    runs; rewrite <- app_assoc; reflexivity.
  - unfold searchSongsByMood, getSpotifyToken. rewrite credentials_truthy. cbn [negb].
    generalize dependent (base64 (rawCreds id secret)). intros c R.
    io. rewrite R, K, P, A. cbn [negb].
    destruct (json_truthy (Some data)); reflexivity.
Qed.

Lemma search_sends_without_token_witness :
  let net := scripted [ answer_with "error" "invalid_client" ] in
  sent (snd (Server.search (Some "id") (Some "secret") (Some (JStr "rain")) net
               (no_requests initial)))
  = [ token_request (base64 (rawCreds (Some "id") (Some "secret")));
      bearer_request (Server.search_url "rain") "undefined" ]
  /\ sent (snd (searchSongsByMood (Some "id") (Some "secret") "rain" net (no_requests initial)))
     = [ token_request (base64 (rawCreds (Some "id") (Some "secret"))) ].
Proof.
  cbn zeta.
  apply (search_sends_without_token (Some "id") (Some "secret") "rain"
           (scripted [ answer_with "error" "invalid_client" ]) (no_requests initial)
           (Response 200 "OK" ("{" ++ quoted "error" ++ ":" ++ quoted "invalid_client" ++ "}")
              (Some (JObj [("error", JStr "invalid_client")])))
           (JObj [("error", JStr "invalid_client")])).
  - discriminate.
  - vm_compute. reflexivity.
  - reflexivity.
  - reflexivity.
  - reflexivity.
Defined.

(** ** mood.js *)

(** X16.  [getApiBase] returns the origin of the page exactly when that
    origin can be read and is not empty, not the text "null" and not a
    [file:] address; in every other case it returns
    [http://localhost:3002].  So the base address is never empty, never
    "null" and never a [file:] address. *)
Theorem getApiBase_is_usable (origin : option string) :
  let base := Page.getApiBase origin in
  (forall o, origin = Some o -> o <> "" -> o <> "null" ->
             String.prefix "file:" o = false -> base = o)
  /\ (origin = None -> base = Page.API_FALLBACK)
  /\ (forall o, origin = Some o ->
                o = "" \/ o = "null" \/ String.prefix "file:" o = true ->
                base = Page.API_FALLBACK)
  /\ base <> "" /\ base <> "null" /\ String.prefix "file:" base = false.
Proof.
  cbn zeta. unfold Page.getApiBase.
  destruct origin as [o|].
  2: { repeat apply conj; try discriminate; reflexivity. }
  destruct (String.eqb_spec o "") as [->|E].
  { repeat apply conj; try discriminate; try reflexivity; intros; congruence. }
  rewrite (string_nonempty_truthy o E). cbn [andb].
  destruct (String.eqb_spec o "null") as [->|N]; cbn [negb andb].
  { repeat apply conj; try discriminate; try reflexivity; intros; congruence. }
  destruct (String.prefix "file:" o) eqn:P; cbn [negb].
  - repeat apply conj; try discriminate; try reflexivity.
    intros o' [= <-] _ _ P'. congruence.
  - repeat apply conj; try assumption.
    + intros o' [= <-] _ _ _. reflexivity.
    + discriminate.
    + intros o' [= <-] [->|[->|P']]; congruence.
Qed.

Lemma getApiBase_is_usable_witness :
  Page.getApiBase (Some "https://moods.example") = "https://moods.example"
  /\ Page.getApiBase (Some "file://") = "http://localhost:3002".
Proof.
  destruct (getApiBase_is_usable (Some "https://moods.example")) as (U & _).
  destruct (getApiBase_is_usable (Some "file://")) as (_ & _ & F & _).
  split.
  - apply (U "https://moods.example"); [reflexivity|discriminate|discriminate|reflexivity].
  - apply (F "file://"); [reflexivity|]. right. right. reflexivity.
Defined.

(** What a helper of the page makes of the answer to its request. *)
Lemma page_helper_result (r : request) (net : network) (w : world) :
  exists found,
    try_catch
      (res ← fetch r;
       if negb (ok res) then raise (Page.complaint res)
       else data ← json_of res; Page.tracks_or_none data)
      (fun err => mret (JArr [])) net w
    = (inr found, World (memory w) (sent w ++ [r]))
    /\ (forall res data tracks,
          net (sent w) r = Answered res -> ok res = true -> parsed res = Some data ->
          read (Some data) "tracks" = inr (Some tracks) ->
          json_truthy (Some tracks) = true ->
          found = tracks)
    /\ (found = JArr []
        \/ exists res data,
             net (sent w) r = Answered res
             /\ ok res = true /\ parsed res = Some data
             /\ read (Some data) "tracks" = inr (Some found)
             /\ json_truthy (Some found) = true).
Proof.
  unfold Page.tracks_or_none, or_empty. io.
  destruct (net (sent w) r) as [res|] eqn:R.
  2: { eexists. repeat apply conj; [reflexivity|discriminate|auto]. }
  destruct (ok res) eqn:K; cbn [negb].
  2: { eexists. repeat apply conj; [reflexivity| |auto].
       intros ? ? ? [= <-]. congruence. }
  destruct (parsed res) as [data|] eqn:P.
  2: { eexists. repeat apply conj; [reflexivity| |auto].
       intros ? ? ? [= <-] _. congruence. }
  destruct (read (Some data) "tracks") as [e|[tracks|]] eqn:T.
  - assert (e = TypeError) as ->.
    { destruct data as [| | | | |fields]; cbn in T; try congruence.
      destruct (lookup_field fields "tracks"); discriminate T. }
    eexists. repeat apply conj; [reflexivity| |auto].
    intros ? ? ? [= <-] _ P'. rewrite P in P'. injection P' as <-. congruence.
  - destruct (json_truthy (Some tracks)) eqn:Tt.
    + exists tracks. repeat apply conj; [reflexivity| |right; eauto 10].
      intros ? ? ? [= <-] _ P'. rewrite P in P'. injection P' as <-. congruence.
    + eexists. repeat apply conj; [reflexivity| |auto].
      intros ? ? ? [= <-] _ P'. rewrite P in P'. injection P' as <-.
      rewrite T. intros [= <-]. congruence.
  - eexists. repeat apply conj; [reflexivity| |auto].
    intros ? ? ? [= <-] _ P'. rewrite P in P'. injection P' as <-. congruence.
Qed.

(** X17.  The two request helpers of the page never throw.  Each sends one
    request.  When the request is answered with a 2xx status and a JSON
    document that holds a truthy [tracks], the helper returns those
    tracks; in every other case, a request that cannot be sent included,
    it returns the empty array. *)
Theorem page_helpers_never_throw (origin : option string) (mood age query : string)
    (net : network) (w : world) :
  let recommendations :=
    Request "POST" (Page.getApiBase origin ++ "/api/recommendations")
      [ ("Content-Type", "application/json") ]
      (Some (Json (JObj [ ("mood", JStr mood); ("age_group", JStr age) ]))) in
  let search :=
    Request "GET" (Page.getApiBase origin ++ "/api/search?q=" ++ encodeURIComponent query)
      [] None in
  (exists found,
     Page.getRecommendations origin mood age net w
     = (inr found, World (memory w) (sent w ++ [recommendations]))
     /\ (forall res data tracks,
           net (sent w) recommendations = Answered res -> ok res = true ->
           parsed res = Some data ->
           read (Some data) "tracks" = inr (Some tracks) ->
           json_truthy (Some tracks) = true ->
           found = tracks)
     /\ (found = JArr []
         \/ exists res data,
              net (sent w) recommendations = Answered res
              /\ ok res = true /\ parsed res = Some data
              /\ read (Some data) "tracks" = inr (Some found)
              /\ json_truthy (Some found) = true))
  /\ (exists found,
        Page.searchTracks origin query net w
        = (inr found, World (memory w) (sent w ++ [search]))
        /\ (forall res data tracks,
              net (sent w) search = Answered res -> ok res = true ->
              parsed res = Some data ->
              read (Some data) "tracks" = inr (Some tracks) ->
              json_truthy (Some tracks) = true ->
              found = tracks)
        /\ (found = JArr []
            \/ exists res data,
                 net (sent w) search = Answered res
                 /\ ok res = true /\ parsed res = Some data
                 /\ read (Some data) "tracks" = inr (Some found)
                 /\ json_truthy (Some found) = true)).
Proof.
  cbn zeta. split.
  - apply (page_helper_result
             (Request "POST" (Page.getApiBase origin ++ "/api/recommendations")
                [ ("Content-Type", "application/json") ]
                (Some (Json (JObj [ ("mood", JStr mood); ("age_group", JStr age) ]))))).
  - apply (page_helper_result
             (Request "GET" (Page.getApiBase origin ++ "/api/search?q="
                             ++ encodeURIComponent query) [] None)).
Qed.

Lemma page_helpers_never_throw_witness :
  fst (Page.getRecommendations (Some "https://moods.example") "sad" "13-17"
         (scripted [ answer_with "tracks" "one" ]) (no_requests initial))
  = inr (JStr "one")
  /\ fst (Page.searchTracks (Some "https://moods.example") "sad rain"
            (scripted [ answer_with "tracks" "two" ]) (no_requests initial))
     = inr (JStr "two").
Proof.
  split.
  - destruct (page_helpers_never_throw (Some "https://moods.example") "sad" "13-17" "sad rain"
                (scripted [ answer_with "tracks" "one" ]) (no_requests initial))
      as [(found & E & F & _) _].
    rewrite E. cbn [fst]. f_equal.
    eapply F; [vm_compute; reflexivity|reflexivity|reflexivity|reflexivity|reflexivity].
  - destruct (page_helpers_never_throw (Some "https://moods.example") "sad" "13-17" "sad rain"
                (scripted [ answer_with "tracks" "two" ]) (no_requests initial))
      as [_ (found & E & F & _)].
    rewrite E. cbn [fst]. f_equal.
    eapply F; [vm_compute; reflexivity|reflexivity|reflexivity|reflexivity|reflexivity].
Defined.

(** X22.  A mood that is truthy but not a string (a number, [true], an
    array, an object) is not answered with 400: the route asks for a token
    first, line 104 then has no [toLowerCase] to call, and the answer is
    500.  The token request is the only request sent and no table is
    touched. *)
Theorem recommendations_needs_a_string (id secret : option string) (body : option json)
    (mood : json) (net : network) (w : world) :
  read body "mood" = inr (Some mood) ->
  json_truthy (Some mood) = true ->
  (forall s, mood <> JStr s) ->
  exists message,
    Server.recommendations id secret body net w
    = (inr (Answer 500 message),
       World (memory w) (sent w ++ [token_request (base64 (rawCreds id secret))])).
Proof.
  intros R T N.
  assert (B : exists fields, body = Some (JObj fields)).
  { destruct body as [[]|]; try discriminate R; eauto.
    all: cbn in R; discriminate R. }
  destruct B as [fields ->].
  assert (A : exists age_group, read (Some (JObj fields)) "age_group" = inr age_group).
  { apply read_defined; [discriminate|reflexivity]. }
  destruct A as [age_group A].
  unfold Server.recommendations. cbn [json_truthy].
  unfold try_catch, mbind at 1 2, IO_bind at 1 2, attempt at 1 2.
  rewrite R, A, T. cbn [negb].
  unfold recommend, getSpotifyToken. rewrite credentials_truthy. cbn [negb].
  generalize (base64 (rawCreds id secret)) as c. intros c.
  destruct mood; try (exfalso; eapply N; reflexivity);
    runs; eauto;
    match goal with
    | H : read (Some ?j) "access_token" = inl _, K : json_truthy (Some ?j) = true |- _ =>
      destruct (read_defined j "access_token" (truthy_not_null _ K) eq_refl) as [? E];
      congruence
    end.
Qed.

Lemma recommendations_needs_a_string_witness :
  exists message,
    Server.recommendations (Some "id") (Some "secret")
      (Some (JObj [ ("mood", JArr [ JStr "sad" ]) ]))
      (scripted [ answer_with "access_token" "t0k3n" ]) (no_requests initial)
    = (inr (Answer 500 message),
       World initial [ token_request (base64 (rawCreds (Some "id") (Some "secret"))) ]).
Proof.
  apply (recommendations_needs_a_string (Some "id") (Some "secret")
           (Some (JObj [ ("mood", JArr [ JStr "sad" ]) ])) (JArr [ JStr "sad" ])
           (scripted [ answer_with "access_token" "t0k3n" ]) (no_requests initial)).
  - reflexivity.
  - reflexivity.
  - discriminate.
Defined.

(** ** The tables across calls *)

(** X18.  No sequence of calls rewrites [MOOD_FEATURES] itself,
    [MOOD_GENRES], [AGE_ADJUSTMENTS] or one of the five adjustment records:
    they are as the module declared them.  The five profile records keep
    their five keys; only their numbers change. *)
Theorem calls_leave_the_other_tables (calls : list (string * option string)) :
  let st := after_calls calls initial in
  heap st !! MOOD_FEATURES = initial_heap !! MOOD_FEATURES
  /\ heap st !! MOOD_GENRES = initial_heap !! MOOD_GENRES
  /\ heap st !! AGE_ADJUSTMENTS = initial_heap !! AGE_ADJUSTMENTS
  /\ Forall (fun l => heap st !! l = initial_heap !! l)
       [ adjust_13_17; adjust_18_25; adjust_26_35; adjust_36_50; adjust_50_plus ]
  /\ Forall (fun l => exists p, heap st !! l = Some (features_of p))
       [ features_happy; features_energetic; features_calm; features_sad;
         features_stressed ].
Proof.
  cbn zeta. assert (S : shaped (after_calls calls initial)) by auto with shaped.
  destruct S as (ph & pe & pc & ps & pt & bp & bc & fr & ->).
  repeat apply conj; [reflexivity ..| |];
    repeat (apply List.Forall_cons; [first [reflexivity | eexists; reflexivity]|]);
    apply List.Forall_nil.
Qed.

(** ** The resolver on concrete calls *)

Lemma tempo_is_one_for_every_bracket_witness :
  exists p genres,
    resolved (resolveFeatures "Stressed" (Some "36-50") initial) = Some (p, genres)
    /\ PrimFloat.eqb (tempo p) 1 = true.
Proof.
  destruct (tempo_is_one_for_every_bracket "Stressed" (Some "36-50"))
    as (p & genres & R & _ & T & _).
  - vm_compute. intuition discriminate.
  - exists p, genres. split; [exact R|]. rewrite T. reflexivity.
Defined.

Lemma query_parameters_of_profile_witness :
  exists genres v e d a t,
    outcome (getRecommendationsByMoodAndAge "calm" (Some "36-50") initial)
    = inr [ ("seed_genres", genres); ("limit", "8");
            ("target_valence", v); ("target_energy", e);
            ("target_danceability", d); ("target_acousticness", a);
            ("target_tempo", t) ].
Proof.
  destruct (query_parameters_of_profile "calm" (Some "36-50"))
    as (p & genres & v & e & d & a & t & _ & _ & _ & _ & _ & _ & Q).
  - vm_compute. intuition discriminate.
  - exists genres, v, e, d, a, t. exact Q.
Defined.

Lemma unlisted_age_changes_nothing_witness :
  exists features genres,
    resolveFeatures "happy" (Some "90+") (after_calls [("sad", Some "13-17")] initial)
    = (inr (features, genres),
       State (heap (after_calls [("sad", Some "13-17")] initial) ++ [literal []])
             (trace (after_calls [("sad", Some "13-17")] initial))).
Proof.
  destruct (unlisted_age_changes_nothing [("sad", Some "13-17")] "happy" "90+")
    as (features & genres & _ & R).
  - vm_compute. intuition discriminate.
  - exists features, genres. exact R.
Defined.
